(** * E-signature field placement and assignment (src/app/app.js)

    A shallow embedding of the state and the event handlers of the [App]
    and [PdfPage] components: the coordinate arithmetic of the drop
    handler, the field and filler collections held in React state, and
    the handlers that update them.

    Conventions.
    - A JavaScript number is an IEEE 754 binary64 value.  It is modelled
      by [spec_float] at precision 53 and maximal exponent 1024, so that
      rounding, infinities and NaN are those of the program.
    - Integer counters ([nextId], [pageNum], [Date.now()]) stay far below
      2^53 and are modelled by [N] and [nat].
    - A JavaScript string is a sequence of code units; [string] models
      the strings whose code units are below 256.
    - The state setters called by one handler are applied together (React
      batches them into one render), so a handler is one function from
      state to state. *)

From Stdlib Require Import ZArith NArith PArith List Bool String Ascii Lia.
From Stdlib Require Import QArith Qminmax Lqa.
From Stdlib Require Import Floats.SpecFloat.
From Stdlib Require Import DecimalString DecimalN.
Import ListNotations.

Set Implicit Arguments.

(** ** Arithmetic interface

    The drop handler only adds, subtracts, multiplies, divides and takes
    [Math.min] and [Math.max] against the constants 0 and 100.  The
    coordinate formulas are written once over this interface; the program
    runs them at [Binary64], the exact reading of the formulas is the
    instance at [Q]. *)

Class Arith (num : Type) := {
  num_zero : num;
  num_hundred : num;
  num_add : num -> num -> num;
  num_sub : num -> num -> num;
  num_mul : num -> num -> num;
  num_div : num -> num -> num;
  Math_min : num -> num -> num;
  Math_max : num -> num -> num
}.

(** ** JavaScript numbers *)

Module JSNumber.

Definition number : Type := spec_float.

Definition prec : Z := 53.
Definition emax : Z := 1024.

Definition NaN : number := S754_nan.
Definition Infinity : number := S754_infinity false.

(** Integer literals of the source: exact below 2^53. *)
Definition ofZ (z : Z) : number := binary_normalize prec emax z 0 false.

Definition zero : number := S754_zero false.
Definition hundred : number := Eval cbv in ofZ 100.

Definition add : number -> number -> number := SFadd prec emax.
Definition sub : number -> number -> number := SFsub prec emax.
Definition mul : number -> number -> number := SFmul prec emax.
Definition div : number -> number -> number := SFdiv prec emax.

Definition compare : number -> number -> option comparison := SFcompare.
Definition ltb : number -> number -> bool := SFltb.
Definition leb : number -> number -> bool := SFleb.

Definition isNaN (v : number) : bool :=
  match v with S754_nan => true | _ => false end.

(** Neither NaN nor an infinity. *)
Definition isFinite (v : number) : bool :=
  match v with
  | S754_zero _ | S754_finite _ _ _ => true
  | _ => false
  end.

(** [Math.max]: NaN if an argument is NaN; +0 is larger than -0. *)
Definition max (a b : number) : number :=
  match compare a b with
  | None => NaN
  | Some Lt => b
  | Some Gt => a
  | Some Eq => match a with S754_zero true => b | _ => a end
  end.

(** [Math.min]: NaN if an argument is NaN; -0 is smaller than +0. *)
Definition min (a b : number) : number :=
  match compare a b with
  | None => NaN
  | Some Lt => a
  | Some Gt => b
  | Some Eq => match a with S754_zero false => b | _ => a end
  end.

(** The value clamped to the interval from 0 to 100. *)
Definition clamp (v : number) : number :=
  if leb v zero then zero
  else if leb hundred v then hundred
  else v.

Definition inRange (v : number) : Prop :=
  leb zero v = true /\ leb v hundred = true.

End JSNumber.

#[export] Instance Binary64 : Arith JSNumber.number := {|
  num_zero := JSNumber.zero;
  num_hundred := JSNumber.hundred;
  num_add := JSNumber.add;
  num_sub := JSNumber.sub;
  num_mul := JSNumber.mul;
  num_div := JSNumber.div;
  Math_min := JSNumber.min;
  Math_max := JSNumber.max
|}.

#[export] Instance Exact : Arith Q := {|
  num_zero := 0%Q;
  num_hundred := 100%Q;
  num_add := Qplus;
  num_sub := Qminus;
  num_mul := Qmult;
  num_div := Qdiv;
  Math_min := Qmin;
  Math_max := Qmax
|}.

(** ** Coordinate arithmetic of the drop handler (PdfPage, useDrop) *)

Record XYCoord (num : Type) := mkXY { x : num; y : num }.

(** The part of [getBoundingClientRect()] the handler reads. *)
Record DOMRect (num : Type) := mkRect {
  rect_left : num;
  rect_top : num;
  width : num;
  height : num
}.

Section CoordinateMapper.
Context {num : Type} `{Arith num}.

(** [Math.max(0, Math.min(100, v))] *)
Definition constrain (v : num) : num :=
  Math_max num_zero (Math_min num_hundred v).

(** New drop from the sidebar: the percentages of the cursor position
    inside the drop target. *)
Definition placeNew (offset : XYCoord num) (dropTargetRect : DOMRect num)
  : num * num :=
  let left :=
    constrain (num_mul (num_div (num_sub (x offset) (rect_left dropTargetRect))
                                (width dropTargetRect)) num_hundred) in
  let top :=
    constrain (num_mul (num_div (num_sub (y offset) (rect_top dropTargetRect))
                                (height dropTargetRect)) num_hundred) in
  (left, top).

(** Move of an existing field: the old percentages plus the drag delta
    as a percentage of the drop target. *)
Definition moveExisting (item_left item_top : num) (delta : XYCoord num)
           (dropTargetRect : DOMRect num) : num * num :=
  let deltaX_percent := num_mul (num_div (x delta) (width dropTargetRect)) num_hundred in
  let deltaY_percent := num_mul (num_div (y delta) (height dropTargetRect)) num_hundred in
  let newLeft := num_add item_left deltaX_percent in
  let newTop := num_add item_top deltaY_percent in
  (constrain newLeft, constrain newTop).

(** The same drag delta applied by two moves in sequence, and one move
    by the doubled delta. *)
Definition moveTwice (item_left item_top : num) (delta : XYCoord num)
           (dropTargetRect : DOMRect num) : num * num :=
  let '(newLeft, newTop) := moveExisting item_left item_top delta dropTargetRect in
  moveExisting newLeft newTop delta dropTargetRect.

Definition doubled (delta : XYCoord num) : XYCoord num :=
  mkXY (num_add (x delta) (x delta)) (num_add (y delta) (y delta)).

Definition moveOnceDoubled (item_left item_top : num) (delta : XYCoord num)
           (dropTargetRect : DOMRect num) : num * num :=
  moveExisting item_left item_top (doubled delta) dropTargetRect.

End CoordinateMapper.

(** Pixel geometry as the browser reports it: finite numbers, and a box
    that has been laid out has positive width and height. *)
Definition finiteXY (p : XYCoord JSNumber.number) : Prop :=
  JSNumber.isFinite (x p) = true /\ JSNumber.isFinite (y p) = true.

Definition finiteRect (r : DOMRect JSNumber.number) : Prop :=
  JSNumber.isFinite (rect_left r) = true /\ JSNumber.isFinite (rect_top r) = true
  /\ JSNumber.isFinite (width r) = true /\ JSNumber.isFinite (height r) = true.

Definition positiveSize (r : DOMRect JSNumber.number) : Prop :=
  JSNumber.ltb JSNumber.zero (width r) = true
  /\ JSNumber.ltb JSNumber.zero (height r) = true.

Close Scope Q_scope.
Open Scope string_scope.

(** ** Regular expressions: the email test of [addFiller] *)

Module RegExp.

Inductive regex : Type :=
| Void : regex                      (* matches nothing *)
| Eps : regex                       (* the empty string *)
| Lit : ascii -> regex              (* one given character *)
| NonSpace : regex                  (* \S *)
| Cat : regex -> regex -> regex
| Alt : regex -> regex -> regex
| Star : regex -> regex.

(** r+ *)
Definition Plus (r : regex) : regex := Cat r (Star r).

(** White space and line terminators among the code units below 256:
    TAB, LF, VT, FF, CR, SP and NBSP. *)
Definition isWhiteSpace (c : ascii) : bool :=
  let n := N_of_ascii c in
  ((9 <=? n) && (n <=? 13) || (n =? 32) || (n =? 160))%N.

Fixpoint nullable (r : regex) : bool :=
  match r with
  | Void => false
  | Eps => true
  | Lit _ => false
  | NonSpace => false
  | Cat r1 r2 => nullable r1 && nullable r2
  | Alt r1 r2 => nullable r1 || nullable r2
  | Star _ => true
  end.

(** What remains to be matched after reading [c]. *)
Fixpoint deriv (c : ascii) (r : regex) : regex :=
  match r with
  | Void => Void
  | Eps => Void
  | Lit d => if Ascii.eqb c d then Eps else Void
  | NonSpace => if isWhiteSpace c then Void else Eps
  | Cat r1 r2 =>
      if nullable r1 then Alt (Cat (deriv c r1) r2) (deriv c r2)
      else Cat (deriv c r1) r2
  | Alt r1 r2 => Alt (deriv c r1) (deriv c r2)
  | Star r1 => Cat (deriv c r1) (Star r1)
  end.

(** Some prefix of [s] matches [r]. *)
Fixpoint matchesPrefix (r : regex) (s : string) : bool :=
  nullable r ||
  match s with
  | EmptyString => false
  | String c s' => matchesPrefix (deriv c r) s'
  end.

(** [r.test(s)] for a regex without flags or anchors: a match may start
    at any index. *)
Fixpoint test (r : regex) (s : string) : bool :=
  matchesPrefix r s ||
  match s with
  | EmptyString => false
  | String _ s' => test r s'
  end.

End RegExp.

(** [/\S+@\S+\.\S+/] *)
Definition emailShape : RegExp.regex :=
  RegExp.Cat (RegExp.Plus RegExp.NonSpace)
    (RegExp.Cat (RegExp.Lit "@")
       (RegExp.Cat (RegExp.Plus RegExp.NonSpace)
          (RegExp.Cat (RegExp.Lit ".") (RegExp.Plus RegExp.NonSpace)))).

(** ** Data held in React state *)

Import JSNumber.

(** An entry of [placedFields]:
    [{ id, pageNum, left, top, type, assignedTo }]. *)
Module PlacedField.
Record t : Type := mk {
  id : N;
  pageNum : nat;
  left : number;
  top : number;
  type : string;
  assignedTo : option string      (* [None] is null *)
}.

(** [{ ...field, left, top }] *)
Definition withPosition (field : t) (l tp : number) : t :=
  mk (id field) (pageNum field) l tp (type field) (assignedTo field).

(** [{ ...field, assignedTo: a }] *)
Definition withAssignedTo (field : t) (a : option string) : t :=
  mk (id field) (pageNum field) (left field) (top field) (type field) a.
End PlacedField.

(** An entry of [fillers]: [{ id, email }]. *)
Module Filler.
Record t : Type := mk {
  id : string;
  email : string
}.
End Filler.

Record PdfDocument : Type := { doc_numPages : nat }.

(** The state hooks of [App] that the handlers read and write. *)
Record State : Type := mkState {
  pdf : option PdfDocument;
  numPages : nat;
  placedFields : list PlacedField.t;
  fillers : list Filler.t;
  newFillerEmail : string;
  nextId : N
}.

Definition initialState : State :=
  mkState None 0 [] [] "" 0.

(** ** JavaScript truthiness and equality on the values at hand *)

(** [!!s] for a string. *)
Definition truthy (s : string) : bool := negb (s =? "").

(** [!a] for a value that is null or a string. *)
Definition isFalsy (a : option string) : bool :=
  match a with
  | None => true
  | Some s => negb (truthy s)
  end.

(** [a === id] for [a] null or a string and [id] a string. *)
Definition strictEq (a : option string) (id : string) : bool :=
  match a with
  | None => false
  | Some s => s =? id
  end.

(** [fillerId || null] *)
Definition orNull (fillerId : string) : option string :=
  if truthy fillerId then Some fillerId else None.

(** ** Handlers of [App] *)

(** The [fileReader.onload] callback of [onFileChange], once the
    document is loaded. *)
Definition onFileLoaded (pdfDoc : PdfDocument) (s : State) : State :=
  mkState (Some pdfDoc) (doc_numPages pdfDoc) [] [] "" 0.

Definition setNewFillerEmail (value : string) (s : State) : State :=
  mkState (pdf s) (numPages s) (placedFields s) (fillers s) value (nextId s).

(** [`filler_${now}`] for the integer [now] read from [Date.now()]. *)
Definition fillerId (now : N) : string :=
  "filler_" ++ NilEmpty.string_of_uint (N.to_uint now).

(** The guard of [addFiller]. *)
Definition canAddFiller (s : State) : bool :=
  truthy (newFillerEmail s)
  && RegExp.test emailShape (newFillerEmail s)
  && negb (existsb (fun f => Filler.email f =? newFillerEmail s) (fillers s)).

Definition addFiller (now : N) (s : State) : State :=
  if canAddFiller s then
    let newFiller := Filler.mk (fillerId now) (newFillerEmail s) in
    mkState (pdf s) (numPages s) (placedFields s)
            (fillers s ++ [newFiller]) "" (nextId s)
  else s.

(** [f => f.assignedTo === id ? { ...f, assignedTo: null } : f] *)
Definition unassign (id : string) (f : PlacedField.t) : PlacedField.t :=
  if strictEq (PlacedField.assignedTo f) id
  then PlacedField.withAssignedTo f None else f.

Definition removeFiller (id : string) (s : State) : State :=
  mkState (pdf s) (numPages s)
    (map (unassign id) (placedFields s))
    (filter (fun f => negb (Filler.id f =? id)) (fillers s))
    (newFillerEmail s) (nextId s).

Definition handleDrop (type : string) (pageNum : nat) (left top : number)
           (s : State) : State :=
  mkState (pdf s) (numPages s)
    (placedFields s ++ [PlacedField.mk (nextId s) pageNum left top type None])
    (fillers s) (newFillerEmail s) (nextId s + 1)%N.

Definition handleMoveField (id : N) (left top : number) (s : State) : State :=
  mkState (pdf s) (numPages s)
    (map (fun field => if (PlacedField.id field =? id)%N
                       then PlacedField.withPosition field left top else field)
         (placedFields s))
    (fillers s) (newFillerEmail s) (nextId s).

Definition handleAssignField (fieldId : N) (fillerId : string) (s : State) : State :=
  mkState (pdf s) (numPages s)
    (map (fun field => if (PlacedField.id field =? fieldId)%N
                       then PlacedField.withAssignedTo field (orNull fillerId)
                       else field)
         (placedFields s))
    (fillers s) (newFillerEmail s) (nextId s).

(** ** Sending: the disabled condition of the button and [handleSend] *)

(** [disabled={placedFields.length === 0 || fillers.length === 0 ||
    placedFields.some(f => !f.assignedTo)}] *)
Definition sendDisabled (s : State) : bool :=
  (List.length (placedFields s) =? 0)%nat
  || (List.length (fillers s) =? 0)%nat
  || existsb (fun f => isFalsy (PlacedField.assignedTo f)) (placedFields s).

Definition isReadyToSend (s : State) : bool := negb (sendDisabled s).

(** Objects as they are serialised: own properties in creation order. *)
Inductive JSValue : Type :=
| VNull : JSValue
| VNumber : number -> JSValue
| VString : string -> JSValue.

Definition JSObject : Type := list (string * JSValue).

Definition ofOption (a : option string) : JSValue :=
  match a with
  | None => VNull
  | Some s => VString s
  end.

(** The object a field record stands for. *)
Definition fieldObject (f : PlacedField.t) : JSObject :=
  [ ("id", VNumber (ofZ (Z.of_N (PlacedField.id f))));
    ("pageNum", VNumber (ofZ (Z.of_nat (PlacedField.pageNum f))));
    ("left", VNumber (PlacedField.left f));
    ("top", VNumber (PlacedField.top f));
    ("type", VString (PlacedField.type f));
    ("assignedTo", ofOption (PlacedField.assignedTo f)) ].

Definition fillerObject (f : Filler.t) : JSObject :=
  [ ("id", VString (Filler.id f)); ("email", VString (Filler.email f)) ].

(** [({key, ...rest}) => rest]: the own properties other than [key]. *)
Definition restWithout (key : string) (o : JSObject) : JSObject :=
  filter (fun kv => negb (fst kv =? key)) o.

(** [o[key]], with [None] for undefined. *)
Fixpoint getProp (key : string) (o : JSObject) : option JSValue :=
  match o with
  | [] => None
  | (k, v) :: o' => if k =? key then Some v else getProp key o'
  end.

Record Payload : Type := mkPayload {
  payload_fillers : list JSObject;
  payload_fields : list JSObject
}.

(** [dataToSend] *)
Definition dataToSend (placedFields : list PlacedField.t)
           (fillers : list Filler.t) : Payload :=
  mkPayload (map fillerObject fillers)
            (map (fun f => restWithout "id" (fieldObject f)) placedFields).

Inductive SendResult : Type :=
| Alert : string -> SendResult      (* an early return after [alert] *)
| Prepared : Payload -> SendResult. (* the payload that is logged *)

Definition handleSend (s : State) : SendResult :=
  let isAnyFieldUnassigned :=
    existsb (fun field => isFalsy (PlacedField.assignedTo field)) (placedFields s) in
  if (List.length (placedFields s) =? 0)%nat then
    Alert "Please place at least one field on the document."
  else if isAnyFieldUnassigned then
    Alert "Please assign all placed fields to a filler."
  else if (List.length (fillers s) =? 0)%nat then
    Alert "Please add at least one filler."
  else Prepared (dataToSend (placedFields s) (fillers s)).

(** ** The drop handler of [PdfPage] *)

(** The dragged item: [{ type }] from the sidebar, whose [id] is
    undefined, or [{ id, left, top, type }] from a placed field. *)
Inductive DragItem : Type :=
| SidebarItem (type : string)
| PlacedItem (id : N) (left top : number) (type : string).

(** The two readings of the drop monitor the handler takes; either may
    be null. *)
Record DropTargetMonitor : Type := mkMonitor {
  getDifferenceFromInitialOffset : option (XYCoord number);
  getClientOffset : option (XYCoord number)
}.

(** [drop: (item, monitor) => ...] of page [pageNum]; [dropRef] is the
    bounding box of [dropRef.current], or [None] when the ref is null. *)
Definition drop (pageNum : nat) (dropRef : option (DOMRect number))
           (item : DragItem) (monitor : DropTargetMonitor) (s : State) : State :=
  match dropRef with
  | None => s
  | Some dropTargetRect =>
      match item with
      | PlacedItem id item_left item_top _ =>
          match getDifferenceFromInitialOffset monitor with
          | None => s
          | Some delta =>
              let '(newLeft, newTop) :=
                moveExisting item_left item_top delta dropTargetRect in
              handleMoveField id newLeft newTop s
          end
      | SidebarItem type =>
          match getClientOffset monitor with
          | None => s
          | Some offset =>
              let '(newLeft, newTop) := placeNew offset dropTargetRect in
              handleDrop type pageNum newLeft newTop s
          end
      end
  end.

(** [placedFields.filter(f => f.pageNum === index + 1)] *)
Definition fieldsForPage (pageNum : nat) (s : State) : list PlacedField.t :=
  filter (fun f => (PlacedField.pageNum f =? pageNum)%nat) (placedFields s).

(** ** Events of the user interface *)

Inductive Event : Type :=
| FileLoaded (pdfDoc : PdfDocument)
| EmailTyped (value : string)
| AddClicked (now : N)
| RemoveClicked (id : string)
| Dropped (pageNum : nat) (dropRef : option (DOMRect number))
          (item : DragItem) (monitor : DropTargetMonitor)
| AssignChanged (fieldId : N) (fillerId : string).

Definition step (e : Event) (s : State) : State :=
  match e with
  | FileLoaded pdfDoc => onFileLoaded pdfDoc s
  | EmailTyped value => setNewFillerEmail value s
  | AddClicked now => addFiller now s
  | RemoveClicked id => removeFiller id s
  | Dropped pageNum dropRef item monitor => drop pageNum dropRef item monitor s
  | AssignChanged fieldId fillerId => handleAssignField fieldId fillerId s
  end.

(** What the rendered page offers.  The remove button exists for the
    listed fillers only; the select of a placed field has the options
    [""] (Unassigned) and the ids of the listed fillers. *)
Definition offered (s : State) (e : Event) : Prop :=
  match e with
  | RemoveClicked id => In id (map Filler.id (fillers s))
  | AssignChanged fieldId fillerId =>
      In fieldId (map PlacedField.id (placedFields s))
      /\ (fillerId = "" \/ In fillerId (map Filler.id (fillers s)))
  | _ => True
  end.

Inductive reachable : State -> Prop :=
| reach_init : reachable initialState
| reach_step : forall s e, reachable s -> offered s e -> reachable (step e s).

Definition run (es : list Event) (s : State) : State :=
  fold_left (fun st e => step e st) es s.

(** Every [assignedTo] is null or the id of a listed filler. *)
Definition assignmentsLive (s : State) : Prop :=
  forall f, In f (placedFields s) ->
    match PlacedField.assignedTo f with
    | None => True
    | Some r => In r (map Filler.id (fillers s))
    end.

(** No [assignedTo] is the empty string. *)
Definition noEmptyAssignment (s : State) : Prop :=
  forall f, In f (placedFields s) -> PlacedField.assignedTo f <> Some "".

(** What an entry of the payload's field list keeps of its field. *)
Definition strippedOf (f : PlacedField.t) (o : JSObject) : Prop :=
  ~ In "id" (map fst o)
  /\ getProp "id" o = None
  /\ getProp "pageNum" o = Some (VNumber (ofZ (Z.of_nat (PlacedField.pageNum f))))
  /\ getProp "left" o = Some (VNumber (PlacedField.left f))
  /\ getProp "top" o = Some (VNumber (PlacedField.top f))
  /\ getProp "type" o = Some (VString (PlacedField.type f))
  /\ getProp "assignedTo" o = Some (ofOption (PlacedField.assignedTo f))
  /\ map fst o = ["pageNum"; "left"; "top"; "type"; "assignedTo"].

(** What an entry of the payload's filler list carries of its filler:
    the id and the email, and nothing else. *)
Definition carriesFiller (g : Filler.t) (o : JSObject) : Prop :=
  getProp "id" o = Some (VString (Filler.id g))
  /\ getProp "email" o = Some (VString (Filler.email g))
  /\ map fst o = ["id"; "email"].

(** ** Counting the fields a filler is referenced by *)

(** The number of placed fields whose [assignedTo] is [id]. *)
Definition referencedBy (id : string) (s : State) : nat :=
  List.length (filter (fun f => strictEq (PlacedField.assignedTo f) id)
                      (placedFields s)).

(** Equality of two [assignedTo] values. *)
Definition sameAssignee (a b : option string) : bool :=
  match a, b with
  | None, None => true
  | Some r, Some r' => r =? r'
  | _, _ => false
  end.

(** The number of positions at which two field lists differ in
    [assignedTo]. *)
Definition reassignedCount (before after : list PlacedField.t) : nat :=
  List.length
    (filter (fun ff => negb (sameAssignee (PlacedField.assignedTo (fst ff))
                                          (PlacedField.assignedTo (snd ff))))
            (combine before after)).

(** What one field looks like after the filler [id] is removed: the
    reference is reset when it was [id], and nothing else changes. *)
Definition unassignedFrom (id : string) (f f' : PlacedField.t) : Prop :=
  PlacedField.id f' = PlacedField.id f
  /\ PlacedField.pageNum f' = PlacedField.pageNum f
  /\ PlacedField.left f' = PlacedField.left f
  /\ PlacedField.top f' = PlacedField.top f
  /\ PlacedField.type f' = PlacedField.type f
  /\ (PlacedField.assignedTo f = Some id -> PlacedField.assignedTo f' = None)
  /\ (PlacedField.assignedTo f <> Some id -> f' = f).

(** ** Sample states *)

(** One page loaded, a Signature field placed at (25%, 5%), no filler. *)
Definition signatureOnPage1 : State :=
  mkState (Some {| doc_numPages := 1 |}) 1
          [PlacedField.mk 0 1 (ofZ 25) (ofZ 5) "Signature" None] [] "" 1.

(** A placed field that is assigned although no filler is listed. *)
Definition assignedWithoutFiller : State :=
  mkState (Some {| doc_numPages := 1 |}) 1
          [PlacedField.mk 0 1 (ofZ 25) (ofZ 5) "Signature" (Some "filler_1000")]
          [] "" 1.

(** A box whose width is still zero, and one whose height is. *)
Definition zeroWidthBox : DOMRect number :=
  mkRect (ofZ 0) (ofZ 0) (ofZ 0) (ofZ 400).

Definition zeroHeightBox : DOMRect number :=
  mkRect (ofZ 0) (ofZ 0) (ofZ 200) (ofZ 0).

(** The box and the pointer of the walk-through: a box 200 by 400 at
    the origin, the pointer at (50,20). *)
Definition sampleBox : DOMRect number :=
  mkRect (ofZ 0) (ofZ 0) (ofZ 200) (ofZ 400).

Definition samplePointer : DropTargetMonitor :=
  mkMonitor None (Some (mkXY (ofZ 50) (ofZ 20))).

(** Load a one-page document, add the filler a@x.com at clock reading
    1000, drop a Signature field on page 1 and assign it to the filler. *)
Definition walkthrough : list Event :=
  [ FileLoaded {| doc_numPages := 1 |};
    EmailTyped "a@x.com";
    AddClicked 1000;
    Dropped 1 (Some sampleBox) (SidebarItem "Signature") samplePointer;
    AssignChanged 0 "filler_1000" ].

(** The state of the walk-through once [email] has been typed into the
    input again. *)
Definition retyped (email : string) : State :=
  setNewFillerEmail email (run walkthrough initialState).

(** Two fillers added with the clock reading [now] both times. *)
Definition sameClock (now : N) : list Event :=
  [ FileLoaded {| doc_numPages := 1 |};
    EmailTyped "a@x.com";
    AddClicked now;
    EmailTyped "b@x.com";
    AddClicked now ].

(** ** What a regular expression matches *)

Module RegExpSemantics.
Import RegExp.

(** The strings a regular expression matches in full. *)
Inductive Matches : regex -> string -> Prop :=
| MEps : Matches Eps ""
| MLit : forall c, Matches (Lit c) (String c "")
| MNonSpace : forall c, isWhiteSpace c = false -> Matches NonSpace (String c "")
| MCat : forall r1 r2 s1 s2,
    Matches r1 s1 -> Matches r2 s2 -> Matches (Cat r1 r2) (s1 ++ s2)
| MAltL : forall r1 r2 s, Matches r1 s -> Matches (Alt r1 r2) s
| MAltR : forall r1 r2 s, Matches r2 s -> Matches (Alt r1 r2) s
| MStarNil : forall r, Matches (Star r) ""
| MStarApp : forall r s1 s2,
    Matches r s1 -> Matches (Star r) s2 -> Matches (Star r) (s1 ++ s2).

(** No character of the string is white space. *)
Fixpoint allNonSpace (s : string) : bool :=
  match s with
  | EmptyString => true
  | String c s' => negb (isWhiteSpace c) && allNonSpace s'
  end.

End RegExpSemantics.

(** ** The colour of a placed field ([PlacedField], getBackgroundColor) *)

Definition colors : list string :=
  [ "bg-pink-200 border-pink-500"; "bg-purple-200 border-purple-500";
    "bg-green-200 border-green-500"; "bg-indigo-200 border-indigo-500" ].

(** [l.findIndex(p)]: the first index at which [p] holds, or -1. *)
Fixpoint findIndex (A : Type) (p : A -> bool) (l : list A) : Z :=
  match l with
  | [] => (-1)%Z
  | a :: l' =>
      if p a then 0%Z
      else let k := findIndex p l' in
           if (k <? 0)%Z then (-1)%Z else (k + 1)%Z
  end.

(** [l[k]] for an integer [k]; [None] is undefined. *)
Definition elementAt (l : list string) (k : Z) : option string :=
  if (k <? 0)%Z then None else nth_error l (Z.to_nat k).

(** [v || fallback] for [v] a string or undefined. *)
Definition orElse (v : option string) (fallback : string) : string :=
  match v with
  | Some c => if truthy c then c else fallback
  | None => fallback
  end.

(** The remainder [%] of JavaScript takes the sign of the dividend. *)
Definition getBackgroundColor (assignedTo : option string)
           (allFillers : list Filler.t) : string :=
  if isFalsy assignedTo then "bg-yellow-200 border-yellow-500"
  else
    let fillerIndex :=
      findIndex (fun f => strictEq assignedTo (Filler.id f)) allFillers in
    orElse (elementAt colors (Z.rem fillerIndex (Z.of_nat (List.length colors))))
           "bg-gray-200 border-gray-500".

(** ** What [App] and [PlacedField] hand to the page *)

(** The drag item of a placed field: [{ id, left, top, type }]. *)
Definition dragItemOf (f : PlacedField.t) : DragItem :=
  PlacedItem (PlacedField.id f) (PlacedField.left f) (PlacedField.top f)
             (PlacedField.type f).

(** [Array.from(new Array(numPages), (el, index) => <PdfPage pageNum={index + 1}
    placedFields={placedFields.filter(f => f.pageNum === index + 1)} />)],
    shown only when [pdf] is set: each page with the fields it is given. *)
Definition renderedPages (s : State) : list (nat * list PlacedField.t) :=
  match pdf s with
  | Some _ =>
      map (fun index => (index + 1, fieldsForPage (index + 1) s)%nat)
          (seq 0 (numPages s))
  | None => []
  end.

(** ** Drops on pages that are laid out *)

Definition finiteReading (p : option (XYCoord number)) : Prop :=
  match p with
  | Some xy => finiteXY xy
  | None => True
  end.

(** A stored coordinate: within 0..100 and not the negative zero, which
    [Math.max(0, v)] never returns. *)
Definition isClamped (v : number) : Prop :=
  inRange v /\ v <> S754_zero true.

Definition coordinatesClamped (s : State) : Prop :=
  forall f, In f (placedFields s) ->
    isClamped (PlacedField.left f) /\ isClamped (PlacedField.top f).

(** An event of a page that is displayed and laid out: the drop target
    is one of the rendered pages, its box and the pointer readings are
    finite, the box has positive width and height, and a dragged placed
    field carries the id, position and type it has in the state. *)
Definition laidOut (s : State) (e : Event) : Prop :=
  offered s e
  /\ match e with
     | Dropped pageNum dropRef item monitor =>
         In pageNum (map fst (renderedPages s))
         /\ match dropRef with
            | Some box => finiteRect box /\ positiveSize box
            | None => True
            end
         /\ finiteReading (getDifferenceFromInitialOffset monitor)
         /\ finiteReading (getClientOffset monitor)
         /\ match item with
            | PlacedItem _ _ _ _ =>
                exists f, In f (placedFields s) /\ item = dragItemOf f
            | SidebarItem _ => True
            end
     | _ => True
     end.

Inductive reachableLaidOut : State -> Prop :=
| laid_init : reachableLaidOut initialState
| laid_step : forall s e,
    reachableLaidOut s -> laidOut s e -> reachableLaidOut (step e s).

(** ** Further invariants *)

(** The ids of the placed fields are pairwise distinct and below the
    counter. *)
Definition fieldIdsFresh (s : State) : Prop :=
  NoDup (map PlacedField.id (placedFields s))
  /\ forall f, In f (placedFields s) -> (PlacedField.id f < nextId s)%N.

(** The emails of the fillers are pairwise distinct, and each one passed
    the guard of [addFiller]. *)
Definition emailsAccepted (s : State) : Prop :=
  NoDup (map Filler.email (fillers s))
  /\ forall f, In f (fillers s) ->
       Filler.email f <> "" /\ RegExp.test emailShape (Filler.email f) = true.

(** A field that may have changed position and nothing else. *)
Definition movedOnly (f f' : PlacedField.t) : Prop :=
  PlacedField.id f' = PlacedField.id f
  /\ PlacedField.pageNum f' = PlacedField.pageNum f
  /\ PlacedField.type f' = PlacedField.type f
  /\ PlacedField.assignedTo f' = PlacedField.assignedTo f.

(** Every placed field lies on a page that is rendered. *)
Definition onRenderedPages (s : State) : Prop :=
  forall f, In f (placedFields s) ->
    In (PlacedField.pageNum f) (map fst (renderedPages s)).

(** [i] is the first position of a filler with id [r]. *)
Definition firstWithId (r : string) (l : list Filler.t) (i : nat) : Prop :=
  (exists g, nth_error l i = Some g /\ Filler.id g = r)
  /\ forall j g', (j < i)%nat -> nth_error l j = Some g' -> Filler.id g' <> r.

(** The clock readings of the additions in a list of events. *)
Fixpoint clockReadings (es : list Event) : list N :=
  match es with
  | [] => []
  | AddClicked now :: es' => now :: clockReadings es'
  | _ :: es' => clockReadings es'
  end.

(** * Properties *)

(** ** Binary64 arithmetic never invents a NaN from finite operands *)

Section RoundingSigns.
Local Open Scope Z_scope.

Lemma shr_1_nonneg (mrs : shr_record) :
  0 <= shr_m mrs -> 0 <= shr_m (shr_1 mrs).
Proof.
  destruct mrs as [m r st]; simpl.
  destruct m as [|p|p]; simpl; try lia; destruct p; simpl; lia.
Qed.

Lemma iter_pos_invariant (A : Type) (P : A -> Prop) (f : A -> A) :
  (forall a, P a -> P (f a)) ->
  forall (n : positive) (a : A), P a -> P (iter_pos f n a).
Proof.
  intros Hf n; induction n as [n IH|n IH|]; intros a Ha; simpl; auto.
Qed.

Lemma shr_nonneg (mrs : shr_record) (e n : Z) :
  0 <= shr_m mrs -> 0 <= shr_m (fst (shr mrs e n)).
Proof.
  intros Hm; unfold shr; destruct n; simpl; auto.
  apply (iter_pos_invariant (fun r => 0 <= shr_m r)); auto using shr_1_nonneg.
Qed.

Lemma shr_fexp_nonneg (m e : Z) (l : location) :
  0 <= m -> 0 <= shr_m (fst (shr_fexp prec emax m e l)).
Proof.
  intros Hm; unfold shr_fexp; apply shr_nonneg.
  destruct l as [|[]]; simpl; exact Hm.
Qed.

Lemma round_nearest_even_nonneg (m : Z) (l : location) :
  0 <= m -> 0 <= round_nearest_even m l.
Proof.
  intros Hm; unfold round_nearest_even.
  destruct l as [|[]]; try lia; destruct (Z.even m); lia.
Qed.

Lemma binary_round_aux_not_nan (sx : bool) (mx ex : Z) (lx : location) :
  0 <= mx -> isNaN (binary_round_aux prec emax sx mx ex lx) = false.
Proof.
  intros Hm; unfold binary_round_aux.
  pose proof (shr_fexp_nonneg ex lx Hm) as H1.
  destruct (shr_fexp prec emax mx ex lx) as [mrs' e']; simpl in H1.
  pose proof (shr_fexp_nonneg e' loc_Exact
                (round_nearest_even_nonneg (loc_of_shr_record mrs') H1)) as H2.
  destruct (shr_fexp prec emax _ e' loc_Exact) as [mrs'' e'']; simpl in H2.
  destruct (shr_m mrs'') as [|p|p]; try reflexivity; try lia.
  destruct (e'' <=? emax - prec); reflexivity.
Qed.

Lemma binary_normalize_not_nan (m e : Z) (szero : bool) :
  isNaN (binary_normalize prec emax m e szero) = false.
Proof.
  destruct m as [|p|p]; simpl; try reflexivity;
    unfold binary_round;
    destruct (shl_align _ _ _) as [mz ez];
    apply binary_round_aux_not_nan; lia.
Qed.
End RoundingSigns.

Lemma sub_not_nan (a b : number) :
  isFinite a = true -> isFinite b = true -> isNaN (sub a b) = false.
Proof.
  destruct a as [sa|sa| |sa ma ea], b as [sb|sb| |sb mb eb];
    simpl; try discriminate; intros _ _.
  - destruct sa, sb; reflexivity.
  - reflexivity.
  - reflexivity.
  - apply binary_normalize_not_nan.
Qed.

Lemma add_not_nan (a b : number) :
  isFinite a = true -> isNaN b = false -> isNaN (add a b) = false.
Proof.
  destruct a as [sa|sa| |sa ma ea], b as [sb|sb| |sb mb eb];
    simpl; try discriminate; intros _ _; try reflexivity.
  - destruct sa, sb; reflexivity.
  - apply binary_normalize_not_nan.
Qed.

(** A positive finite number is a finite value with sign bit clear. *)
Lemma positive_finite (w : number) :
  isFinite w = true -> ltb zero w = true ->
  exists m e, w = S754_finite false m e.
Proof.
  destruct w as [sw|sw| |sw m e]; simpl; try discriminate.
  destruct sw; try discriminate; eauto.
Qed.

Lemma div_not_nan (a w : number) :
  isNaN a = false -> isFinite w = true -> ltb zero w = true ->
  isNaN (div a w) = false.
Proof.
  intros Ha Hw Hpos.
  destruct (positive_finite w Hw Hpos) as (m & e & ->).
  destruct a as [sa|sa| |sa ma ea]; simpl in *; try reflexivity; try discriminate.
  unfold div, SFdiv.
  destruct (SFdiv_core_binary prec emax (Z.pos ma) ea (Z.pos m) e)
    as [[mz ez] lz] eqn:Hcore.
  apply binary_round_aux_not_nan.
  unfold SFdiv_core_binary in Hcore.
  set (sh := (ea - e - _)%Z) in Hcore.
  destruct (Z.div_eucl _ (Z.pos m)) as [q r] eqn:Hq in Hcore.
  injection Hcore as <- _ _.
  match type of Hq with Z.div_eucl ?n _ = _ =>
    assert (Hn : (0 <= n)%Z) by (destruct sh; try lia; apply Z.shiftl_nonneg; lia);
    pose proof (Z.div_pos n (Z.pos m) Hn ltac:(lia)) as Hd;
    unfold Z.div in Hd; rewrite Hq in Hd
  end.
  exact Hd.
Qed.

Lemma mul_hundred_not_nan (a : number) :
  isNaN a = false -> isNaN (mul a hundred) = false.
Proof.
  destruct a as [sa|sa| |sa ma ea]; simpl; try reflexivity; try discriminate.
  intros _. apply binary_round_aux_not_nan. lia.
Qed.

(** ** [Math.max(0, Math.min(100, v))] clamps to the interval 0..100 *)

Lemma compare_finite_antisym (m1 m2 : positive) (e1 e2 : Z) :
  SFcompare (S754_finite false m2 e2) (S754_finite false m1 e1)
  = option_map CompOpp
      (SFcompare (S754_finite false m1 e1) (S754_finite false m2 e2)).
Proof.
  simpl. rewrite (Z.compare_antisym e1 e2).
  destruct (e1 ?= e2)%Z; simpl; try reflexivity.
  rewrite (Pos.compare_cont_antisym m1 m2 Eq). reflexivity.
Qed.

Lemma constrain_clamp (v : number) :
  isNaN v = false -> constrain v = clamp v.
Proof.
  intros Hv. unfold constrain, clamp; simpl.
  destruct v as [sv|sv| |sv m e]; try discriminate.
  - destruct sv; reflexivity.
  - destruct sv; reflexivity.
  - destruct sv; [reflexivity|].
    unfold JSNumber.min, JSNumber.max, leb, SFleb, compare, hundred.
    change (SFcompare (S754_finite false m e) zero) with (Some Gt).
    cbv iota.
    destruct (SFcompare (S754_finite false 7036874417766400 (-46))
                        (S754_finite false m e)) as [[]|] eqn:Hc.
    + reflexivity.
    + reflexivity.
    + reflexivity.
    + discriminate Hc.
Qed.


Lemma clamp_inRange (v : number) :
  isNaN v = false -> inRange (clamp v).
Proof.
  intros Hv. unfold clamp, inRange.
  destruct (leb v zero) eqn:H0; [split; reflexivity|].
  destruct (leb hundred v) eqn:H100; [split; reflexivity|].
    destruct v as [sv|sv| |sv m e]; try discriminate Hv.
  - destruct sv; discriminate H0.
  - destruct sv; [discriminate H0|discriminate H100].
  - destruct sv; [discriminate H0|]. clear H0.
  split; [reflexivity|].
  unfold leb, SFleb, hundred in *.
  rewrite compare_finite_antisym in H100.
  destruct (SFcompare (S754_finite false m e) _) as [[]|] eqn:Hc.
  + reflexivity.
  + reflexivity.
  + discriminate H100.
  + discriminate Hc.
Qed.

Lemma constrain_inRange (v : number) :
  isNaN v = false -> inRange (constrain v).
Proof.
  intros Hv. rewrite constrain_clamp by exact Hv. apply clamp_inRange, Hv.
Qed.

Lemma inRange_not_nan (v : number) : inRange v -> isNaN v = false.
Proof.
  intros [H _]. destruct v; try reflexivity. discriminate.
Qed.

Lemma isFinite_not_nan (v : number) : isFinite v = true -> isNaN v = false.
Proof.
  destruct v; simpl; congruence.
Qed.

(** ** Placement of a new field *)

(** The percentage of a pixel distance within a positive extent is a
    number, possibly infinite, never NaN. *)
Lemma percent_not_nan (d w : number) :
  isNaN d = false -> isFinite w = true -> ltb zero w = true ->
  isNaN (mul (div d w) hundred) = false.
Proof.
  intros Hd Hw Hpos. apply mul_hundred_not_nan, div_not_nan; assumption.
Qed.

(** C2. For a drop of a new field on a box of positive width and height,
    [placeNew] returns [(offset.x - box.left) / box.width * 100] and
    [(offset.y - box.top) / box.height * 100], each clamped to the
    interval from 0 to 100, and the drop handler appends a field with
    these coordinates; the drop at offset (50,20) inside the box
    [{left:0, top:0, width:200, height:400}] gives left 25 and top 5. *)
Theorem placeNew_percentages
        (offset : XYCoord number) (box : DOMRect number) :
  finiteXY offset -> finiteRect box -> positiveSize box ->
  let left := mul (div (sub (x offset) (rect_left box)) (width box)) hundred in
  let top := mul (div (sub (y offset) (rect_top box)) (height box)) hundred in
  placeNew offset box = (clamp left, clamp top)
  /\ inRange (fst (placeNew offset box))
  /\ inRange (snd (placeNew offset box))
  /\ (forall pageNum type delta s,
        drop pageNum (Some box) (SidebarItem type)
             (mkMonitor delta (Some offset)) s
        = handleDrop type pageNum (clamp left) (clamp top) s)
  /\ placeNew (mkXY (ofZ 50) (ofZ 20))
              (mkRect (ofZ 0) (ofZ 0) (ofZ 200) (ofZ 400))
     = (ofZ 25, ofZ 5).
Proof.
  intros [Hx Hy] (Hl & Ht & Hw & Hh) [Hwpos Hhpos] left top.
  assert (Hleft : isNaN left = false)
    by (apply percent_not_nan; auto using sub_not_nan).
  assert (Htop : isNaN top = false)
    by (apply percent_not_nan; auto using sub_not_nan).
  assert (Heq : placeNew offset box = (clamp left, clamp top)).
  { change (placeNew offset box) with (constrain left, constrain top).
    rewrite (constrain_clamp left Hleft), (constrain_clamp top Htop).
    reflexivity. }
  split; [exact Heq|].
  rewrite Heq; simpl fst; simpl snd.
  split; [apply clamp_inRange, Hleft|].
  split; [apply clamp_inRange, Htop|].
  split.
  - intros pageNum type delta s. unfold drop.
    cbn [getClientOffset]. rewrite Heq. reflexivity.
  - vm_compute. reflexivity.
Qed.

Lemma placeNew_percentages_witness :
  let offset := mkXY (ofZ 320) (ofZ 48) in
  let box := mkRect (ofZ 20) (ofZ 8) (ofZ 600) (ofZ 800) in
  finiteXY offset /\ finiteRect box /\ positiveSize box
  /\ placeNew offset box = (ofZ 50, ofZ 5).
Proof.
  intros offset box.
  assert (Hxy : finiteXY offset) by (split; reflexivity).
  assert (Hbox : finiteRect box) by (repeat split; reflexivity).
  assert (Hpos : positiveSize box) by (split; reflexivity).
  repeat (split; [assumption|]).
  destruct (@placeNew_percentages offset box Hxy Hbox Hpos) as [Heq _].
  rewrite Heq. vm_compute. reflexivity.
Defined.

(** ** Move of an existing field *)

(** C3. For a move of an existing field over a box of positive width and
    height, [moveExisting] returns [currentLeft + delta.x / box.width * 100]
    and [currentTop + delta.y / box.height * 100], each clamped to the
    interval from 0 to 100.  The delta is the difference between drag
    start and drop: the drop handler passes it on whatever the absolute
    pointer position read by [getClientOffset] is. *)
Theorem moveExisting_percentages
        (currentLeft currentTop : number)
        (delta : XYCoord number) (box : DOMRect number) :
  isFinite currentLeft = true -> isFinite currentTop = true ->
  finiteXY delta -> finiteRect box -> positiveSize box ->
  let left := add currentLeft (mul (div (x delta) (width box)) hundred) in
  let top := add currentTop (mul (div (y delta) (height box)) hundred) in
  moveExisting currentLeft currentTop delta box = (clamp left, clamp top)
  /\ inRange (fst (moveExisting currentLeft currentTop delta box))
  /\ inRange (snd (moveExisting currentLeft currentTop delta box))
  /\ (forall pageNum id type pointer s,
        drop pageNum (Some box) (PlacedItem id currentLeft currentTop type)
             (mkMonitor (Some delta) pointer) s
        = handleMoveField id (clamp left) (clamp top) s).
Proof.
  intros Hcl Hct [Hx Hy] (_ & _ & Hw & Hh) [Hwpos Hhpos] left top.
  assert (Hleft : isNaN left = false).
  { apply add_not_nan; [exact Hcl|].
    apply percent_not_nan; auto using isFinite_not_nan. }
  assert (Htop : isNaN top = false).
  { apply add_not_nan; [exact Hct|].
    apply percent_not_nan; auto using isFinite_not_nan. }
  assert (Heq : moveExisting currentLeft currentTop delta box
                = (clamp left, clamp top)).
  { change (moveExisting currentLeft currentTop delta box)
      with (constrain left, constrain top).
    rewrite (constrain_clamp left Hleft), (constrain_clamp top Htop).
    reflexivity. }
  split; [exact Heq|].
  rewrite Heq; simpl fst; simpl snd.
  split; [apply clamp_inRange, Hleft|].
  split; [apply clamp_inRange, Htop|].
  intros pageNum id type pointer s. unfold drop.
  cbn [getDifferenceFromInitialOffset]. rewrite Heq. reflexivity.
Qed.

Lemma moveExisting_percentages_witness :
  let delta := mkXY (ofZ 30) (ofZ (-40)) in
  let box := mkRect (ofZ 20) (ofZ 8) (ofZ 600) (ofZ 800) in
  isFinite (ofZ 25) = true /\ isFinite (ofZ 5) = true
  /\ finiteXY delta /\ finiteRect box /\ positiveSize box
  /\ moveExisting (ofZ 25) (ofZ 5) delta box = (ofZ 30, ofZ 0).
Proof.
  intros delta box.
  assert (Hl : isFinite (ofZ 25) = true) by reflexivity.
  assert (Ht : isFinite (ofZ 5) = true) by reflexivity.
  assert (Hd : finiteXY delta) by (split; reflexivity).
  assert (Hbox : finiteRect box) by (repeat split; reflexivity).
  assert (Hpos : positiveSize box) by (split; reflexivity).
  repeat (split; [assumption|]).
  destruct (@moveExisting_percentages (ofZ 25) (ofZ 5) delta box
              Hl Ht Hd Hbox Hpos) as [Heq _].
  rewrite Heq. vm_compute. reflexivity.
Defined.

(** ** A surface that has not been laid out *)

(** C5 (the handler does not skip). On a box of width zero the drop
    handler still divides: a new field dropped at the left edge of the
    box is stored with left NaN, and a placed field moved by a delta with
    no horizontal part gets left NaN.  A pointer away from the edge gives
    an infinity, which is clamped to 100, and the field is created all
    the same.  A box of height zero does the same to top. *)
Theorem drop_on_zero_width_stores_NaN :
  placedFields
    (drop 1 (Some zeroWidthBox) (SidebarItem "Text")
          (mkMonitor None (Some (mkXY (ofZ 0) (ofZ 20)))) signatureOnPage1)
  = (placedFields signatureOnPage1
     ++ [PlacedField.mk 1 1 NaN (ofZ 5) "Text" None])%list
  /\ placedFields
       (drop 1 (Some zeroWidthBox) (PlacedItem 0 (ofZ 25) (ofZ 5) "Signature")
             (mkMonitor (Some (mkXY (ofZ 0) (ofZ 4))) None) signatureOnPage1)
     = [PlacedField.mk 0 1 NaN (ofZ 6) "Signature" None]
  /\ placedFields
       (drop 1 (Some zeroWidthBox) (SidebarItem "Text")
             (mkMonitor None (Some (mkXY (ofZ 50) (ofZ 20)))) signatureOnPage1)
     = (placedFields signatureOnPage1
        ++ [PlacedField.mk 1 1 (ofZ 100) (ofZ 5) "Text" None])%list
  /\ placedFields
       (drop 1 (Some zeroHeightBox) (SidebarItem "Text")
             (mkMonitor None (Some (mkXY (ofZ 50) (ofZ 0)))) signatureOnPage1)
     = (placedFields signatureOnPage1
        ++ [PlacedField.mk 1 1 (ofZ 25) NaN "Text" None])%list.
Proof.
  repeat split; vm_compute; reflexivity.
Qed.

(** ** Two moves against one move by the doubled delta *)

(** C9 as stated fails in binary64: from left 25 on a box 300 pixels
    wide, two moves by one pixel end at 25.666666666666664 and one move
    by two pixels ends at 25.666666666666668. *)
Lemma moveTwice_differs_binary64 :
  ~ (forall (left top : number) (delta : XYCoord number) (box : DOMRect number),
        inRange left -> inRange top ->
        finiteXY delta -> finiteRect box -> positiveSize box ->
        moveTwice left top delta box = moveOnceDoubled left top delta box).
Proof.
  intros H.
  specialize (H (ofZ 25) (ofZ 5) (mkXY (ofZ 1) (ofZ 0))
                (mkRect (ofZ 0) (ofZ 0) (ofZ 300) (ofZ 400))).
  assert (Hne : moveTwice (ofZ 25) (ofZ 5) (mkXY (ofZ 1) (ofZ 0))
                  (mkRect (ofZ 0) (ofZ 0) (ofZ 300) (ofZ 400))
                = (S754_finite false 7224524402240170 (-48), ofZ 5))
    by (vm_compute; reflexivity).
  rewrite Hne in H.
  assert (Hone : moveOnceDoubled (ofZ 25) (ofZ 5) (mkXY (ofZ 1) (ofZ 0))
                  (mkRect (ofZ 0) (ofZ 0) (ofZ 300) (ofZ 400))
                = (S754_finite false 7224524402240171 (-48), ofZ 5))
    by (vm_compute; reflexivity).
  rewrite Hone in H.
  assert (Heq : (S754_finite false 7224524402240170 (-48), ofZ 5)
                = (S754_finite false 7224524402240171 (-48), ofZ 5)).
  { apply H; repeat split; reflexivity. }
  discriminate Heq.
Qed.

(** ** The exact reading of the move formulas *)

Section ExactArithmetic.
Local Open Scope Q_scope.

Lemma constrain_exact_cases (v : Q) :
  (v <= 0 /\ constrain v == 0)
  \/ (0 <= v <= 100 /\ constrain v == v)
  \/ (100 <= v /\ constrain v == 100).
Proof.
  unfold constrain; simpl.
  destruct (Q.min_spec 100 v) as [[Hlt Hmin]|[Hle Hmin]];
    destruct (Q.max_spec 0 (Qmin 100 v)) as [[Hlt' Hmax]|[Hle' Hmax]];
    rewrite Hmin in *; lra.
Qed.

Lemma doubled_percent (d w : Q) :
  0 < w -> (d + d) / w * 100 == d / w * 100 + d / w * 100.
Proof.
  intros Hw. field. lra.
Qed.

Lemma constrain_twice_exact (v p p2 : Q) :
  0 <= v <= 100 -> p2 == p + p ->
  constrain (constrain (v + p) + p) == constrain (v + p2).
Proof.
  intros Hv Hp.
  destruct (constrain_exact_cases (v + p)) as [[? Ha]|[[? Ha]|[? Ha]]];
    destruct (constrain_exact_cases (constrain (v + p) + p))
      as [[? Hb]|[[? Hb]|[? Hb]]];
    destruct (constrain_exact_cases (v + p2)) as [[? Hc]|[[? Hc]|[? Hc]]];
    rewrite Hb, Hc; lra.
Qed.

(** C9, amended. In exact arithmetic, for a field position within
    0..100 and a box of positive width and height, two moves by
    (dx,dy) in sequence end at the same position as one move by
    (2dx,2dy), clamping included. *)
Theorem moveExisting_translation_exact
        (left top : Q) (delta : XYCoord Q) (box : DOMRect Q) :
  0 <= left <= 100 -> 0 <= top <= 100 ->
  0 < width box -> 0 < height box ->
  fst (moveTwice left top delta box) == fst (moveOnceDoubled left top delta box)
  /\ snd (moveTwice left top delta box) == snd (moveOnceDoubled left top delta box).
Proof.
  intros Hl Ht Hw Hh.
  unfold moveTwice, moveOnceDoubled, moveExisting, doubled; simpl.
  split; apply constrain_twice_exact; auto using doubled_percent.
Qed.

Lemma moveExisting_translation_exact_witness :
  let delta := mkXY 1 0 in
  let box := mkRect 0 0 300 400 in
  (0 <= 25 <= 100 /\ 0 <= 5 <= 100 /\ 0 < width box /\ 0 < height box)
  /\ fst (moveTwice 25 5 delta box) == fst (moveOnceDoubled 25 5 delta box)
  /\ snd (moveTwice 25 5 delta box) == snd (moveOnceDoubled 25 5 delta box).
Proof.
  intros delta box.
  assert (Hl : 0 <= 25 <= 100) by (split; discriminate).
  assert (Ht : 0 <= 5 <= 100) by (split; discriminate).
  assert (Hw : 0 < width box) by reflexivity.
  assert (Hh : 0 < height box) by reflexivity.
  split; [repeat split; try assumption; discriminate|].
  exact (@moveExisting_translation_exact 25 5 delta box Hl Ht Hw Hh).
Defined.
End ExactArithmetic.

(** ** Invariants of the reachable states *)

Lemma orNull_not_empty (fillerId : string) : orNull fillerId <> Some "".
Proof.
  unfold orNull, truthy.
  destruct (fillerId =? "") eqn:E; simpl; [discriminate|].
  intros H; injection H as ->. discriminate E.
Qed.

Lemma orNull_cases (fillerId : string) :
  (fillerId = "" /\ orNull fillerId = None)
  \/ (fillerId <> "" /\ orNull fillerId = Some fillerId).
Proof.
  unfold orNull, truthy.
  destruct (String.eqb_spec fillerId ""); simpl; auto.
Qed.

(** [assignedTo] survives a change of position. *)
Lemma handleMoveField_assignedTo (id : N) (l t : number) (s : State) (f' : PlacedField.t) :
  In f' (placedFields (handleMoveField id l t s)) ->
  exists f, In f (placedFields s)
            /\ PlacedField.assignedTo f' = PlacedField.assignedTo f.
Proof.
  simpl. rewrite in_map_iff. intros (f & <- & Hin).
  exists f; split; [exact Hin|].
  destruct (PlacedField.id f =? id)%N; reflexivity.
Qed.

Lemma handleDrop_fields (type : string) (pageNum : nat) (l t : number)
      (s : State) (f' : PlacedField.t) :
  In f' (placedFields (handleDrop type pageNum l t s)) ->
  In f' (placedFields s) \/ PlacedField.assignedTo f' = None.
Proof.
  simpl. rewrite in_app_iff. intros [H|[<-|[]]]; auto.
Qed.

(** The drop handler returns the state, moves a field or appends one. *)
Lemma drop_cases (pageNum : nat) (dropRef : option (DOMRect number))
      (item : DragItem) (monitor : DropTargetMonitor) (s : State) :
  drop pageNum dropRef item monitor s = s
  \/ (exists id l t, drop pageNum dropRef item monitor s = handleMoveField id l t s)
  \/ (exists type l t, drop pageNum dropRef item monitor s = handleDrop type pageNum l t s).
Proof.
  unfold drop.
  destruct dropRef as [box|]; [|auto].
  destruct item as [type|id l t type].
  - destruct (getClientOffset monitor) as [offset|]; [|auto].
    destruct (placeNew offset box) as [nl nt]. right; right; eauto.
  - destruct (getDifferenceFromInitialOffset monitor) as [delta|]; [|auto].
    destruct (moveExisting l t delta box) as [nl nt]. right; left; eauto.
Qed.

Lemma drop_fillers (pageNum : nat) (dropRef : option (DOMRect number))
      (item : DragItem) (monitor : DropTargetMonitor) (s : State) :
  fillers (drop pageNum dropRef item monitor s) = fillers s.
Proof.
  destruct (drop_cases pageNum dropRef item monitor s)
    as [->|[(id & l & t & ->)|(type & l & t & ->)]]; reflexivity.
Qed.

Lemma drop_assignedTo (pageNum : nat) (dropRef : option (DOMRect number))
      (item : DragItem) (monitor : DropTargetMonitor) (s : State)
      (f' : PlacedField.t) :
  In f' (placedFields (drop pageNum dropRef item monitor s)) ->
  PlacedField.assignedTo f' = None
  \/ exists f, In f (placedFields s)
               /\ PlacedField.assignedTo f' = PlacedField.assignedTo f.
Proof.
  destruct (drop_cases pageNum dropRef item monitor s)
    as [->|[(id & l & t & ->)|(type & l & t & ->)]]; intros Hin.
  - right; eauto.
  - right; eapply handleMoveField_assignedTo; eauto.
  - destruct (handleDrop_fields _ _ _ _ _ _ Hin); [right|left]; eauto.
Qed.

Lemma addFiller_placedFields (now : N) (s : State) :
  placedFields (addFiller now s) = placedFields s.
Proof.
  unfold addFiller. destruct (canAddFiller s); reflexivity.
Qed.

Lemma addFiller_keeps_ids (now : N) (s : State) (r : string) :
  In r (map Filler.id (fillers s)) ->
  In r (map Filler.id (fillers (addFiller now s))).
Proof.
  unfold addFiller. destruct (canAddFiller s); simpl; auto.
  rewrite map_app, in_app_iff. auto.
Qed.

Lemma removeFiller_keeps_other_ids (id r : string) (s : State) :
  r <> id -> In r (map Filler.id (fillers s)) ->
  In r (map Filler.id (fillers (removeFiller id s))).
Proof.
  simpl. rewrite !in_map_iff. intros Hne (g & <- & Hin).
  exists g; split; [reflexivity|].
  apply filter_In; split; [exact Hin|].
  destruct (String.eqb_spec (Filler.id g) id); [contradiction|reflexivity].
Qed.

Lemma strictEq_spec (a : option string) (id : string) :
  strictEq a id = true <-> a = Some id.
Proof.
  destruct a as [r|]; simpl.
  - rewrite String.eqb_eq. split; congruence.
  - split; discriminate.
Qed.

Lemma noEmptyAssignment_step (e : Event) (s : State) :
  noEmptyAssignment s -> noEmptyAssignment (step e s).
Proof.
  intros Hs; destruct e as [doc|v|now|id|pageNum dropRef item monitor|fid rid];
    simpl; intros f'.
  - intros [].
  - apply Hs.
  - rewrite addFiller_placedFields. apply Hs.
  - simpl. rewrite in_map_iff. intros (f & <- & Hin). unfold unassign.
    destruct (strictEq _ id); [discriminate|auto].
  - intros Hin. destruct (drop_assignedTo _ _ _ _ _ _ Hin) as [->|(f & Hf & ->)];
      [discriminate|auto].
  - simpl. rewrite in_map_iff. intros (f & <- & Hin).
    destruct (PlacedField.id f =? fid)%N; simpl; auto using orNull_not_empty.
Qed.

Lemma assignmentsLive_step (e : Event) (s : State) :
  assignmentsLive s -> offered s e -> assignmentsLive (step e s).
Proof.
  intros Hs; destruct e as [doc|v|now|id|pageNum dropRef item monitor|fid rid];
    simpl; intros Hoff f'.
  - intros [].
  - apply Hs.
  - rewrite addFiller_placedFields. intros Hin. specialize (Hs f' Hin).
    destruct (PlacedField.assignedTo f'); auto using addFiller_keeps_ids.
  - cbn [placedFields removeFiller]. rewrite in_map_iff. intros (f & <- & Hin).
    specialize (Hs f Hin). unfold unassign.
    destruct (strictEq (PlacedField.assignedTo f) id) eqn:E; [exact I|].
    destruct (PlacedField.assignedTo f) as [r|] eqn:Ha; [|exact I].
    apply removeFiller_keeps_other_ids; [|exact Hs].
    intros ->. simpl in E. rewrite String.eqb_refl in E. discriminate.
  - intros Hin. rewrite drop_fillers.
    destruct (drop_assignedTo _ _ _ _ _ _ Hin) as [->|(f & Hf & ->)];
      [exact I|exact (Hs f Hf)].
  - cbn [placedFields fillers handleAssignField].
    rewrite in_map_iff. intros (f & <- & Hin).
    destruct (PlacedField.id f =? fid)%N; [|exact (Hs f Hin)].
    cbn [PlacedField.assignedTo PlacedField.withAssignedTo].
    destruct (orNull_cases rid) as [[_ ->]|[Hne ->]]; [exact I|].
    destruct Hoff as [_ [->|Hr]]; [contradiction|exact Hr].
Qed.

Lemma reachable_noEmptyAssignment (s : State) :
  reachable s -> noEmptyAssignment s.
Proof.
  induction 1 as [|s e _ IH _].
  - intros f [].
  - apply noEmptyAssignment_step, IH.
Qed.

Lemma reachable_assignmentsLive (s : State) :
  reachable s -> assignmentsLive s.
Proof.
  induction 1 as [|s e _ IH Hoff].
  - intros f [].
  - apply assignmentsLive_step; assumption.
Qed.

(** ** The walk-through is a run of the interface *)

Lemma walkthrough_reachable : reachable (run walkthrough initialState).
Proof.
  unfold run, walkthrough; cbn [fold_left].
  repeat apply reach_step; try exact reach_init; try exact I.
  vm_compute. auto.
Qed.

(** The walk-through ends with the field at (25%, 5%) assigned to the
    filler and the document ready to send; removing the filler resets the
    field and the document is no longer ready. *)
Example walkthrough_outcome :
  placedFields (run walkthrough initialState)
  = [PlacedField.mk 0 1 (ofZ 25) (ofZ 5) "Signature" (Some "filler_1000")]
  /\ isReadyToSend (run walkthrough initialState) = true
  /\ placedFields (removeFiller "filler_1000" (run walkthrough initialState))
     = [PlacedField.mk 0 1 (ofZ 25) (ofZ 5) "Signature" None]
  /\ isReadyToSend (removeFiller "filler_1000" (run walkthrough initialState))
     = false.
Proof.
  repeat split; vm_compute; reflexivity.
Qed.

(** ** Readiness to send *)

Lemma length_eqb_0 (A : Type) (l : list A) :
  (List.length l =? 0)%nat = true <-> l = [].
Proof.
  destruct l; simpl; split; congruence.
Qed.

Lemma isFalsy_null (a : option string) :
  a <> Some "" -> (isFalsy a = true <-> a = None).
Proof.
  intros Hne. destruct a as [r|]; simpl; [|tauto].
  unfold truthy. rewrite negb_involutive, String.eqb_eq.
  split; [intros ->; contradiction|discriminate].
Qed.

Lemma anyUnassigned_iff (s : State) :
  noEmptyAssignment s ->
  (existsb (fun f => isFalsy (PlacedField.assignedTo f)) (placedFields s) = true
   <-> exists f, In f (placedFields s) /\ PlacedField.assignedTo f = None).
Proof.
  intros Hs. rewrite existsb_exists.
  split; intros (f & Hin & Hf); exists f; (split; [exact Hin|]);
    apply (isFalsy_null (Hs f Hin)); exact Hf.
Qed.

(** Turn [b = true <-> P], for a boolean that has been evaluated, into
    [P] or its negation. *)
Ltac flag_to_prop :=
  match goal with
  | H : true = true <-> ?P |- _ =>
      apply proj1 in H; specialize (H eq_refl)
  | H : false = true <-> ?P |- _ =>
      let H' := fresh in
      assert (H' : ~ P) by (intros E; apply H in E; discriminate E);
      clear H; rename H' into H
  end.

(** C1. In every state, [isReadyToSend] (the Send button is enabled)
    holds exactly when there is a placed field, there is a filler and
    every placed field has a non-null [assignedTo]; this is exactly when
    [handleSend] gets past its three alerts and prepares the payload,
    and it fails exactly when one of the three causes holds.  The
    states are those in which no [assignedTo] is the empty string, which
    no handler ever stores ([noEmptyAssignment_step]): there the
    truthiness test [!f.assignedTo] of the source is a test for null. *)
Theorem isReadyToSend_iff (s : State) :
  noEmptyAssignment s ->
  (isReadyToSend s = true
   <-> placedFields s <> [] /\ fillers s <> []
       /\ forall f, In f (placedFields s) -> PlacedField.assignedTo f <> None)
  /\ (isReadyToSend s = true
      <-> handleSend s = Prepared (dataToSend (placedFields s) (fillers s)))
  /\ (isReadyToSend s = false
      <-> placedFields s = []
          \/ (exists f, In f (placedFields s) /\ PlacedField.assignedTo f = None)
          \/ fillers s = []).
Proof.
  intros Hs.
  pose proof (anyUnassigned_iff Hs) as Hany.
  pose proof (length_eqb_0 (placedFields s)) as Hf.
  pose proof (length_eqb_0 (fillers s)) as Hr.
  unfold isReadyToSend, sendDisabled, handleSend.
  destruct (List.length (placedFields s) =? 0)%nat;
    destruct (List.length (fillers s) =? 0)%nat;
    destruct (existsb _ (placedFields s)); simpl;
    repeat flag_to_prop; (split; [|split]); split; intros Hgoal;
    try discriminate; try reflexivity; try tauto.
  all: try (destruct Hgoal as (Hnf & Hnr & Hall);
            first [ contradiction
                  | destruct Hany as (f & Hin & Hnone);
                    exact (False_ind _ (Hall f Hin Hnone)) ]).
  - repeat split; try assumption.
    intros f Hin Hnone. apply Hany. eauto.
Qed.

Lemma isReadyToSend_iff_witness :
  let s := run walkthrough initialState in
  (noEmptyAssignment s
   /\ placedFields s <> [] /\ fillers s <> []
   /\ forall f, In f (placedFields s) -> PlacedField.assignedTo f <> None)
  /\ (noEmptyAssignment assignedWithoutFiller
      /\ isReadyToSend assignedWithoutFiller = false).
Proof.
  intros s.
  assert (Hs : noEmptyAssignment s) by (intros f [<-|[]]; discriminate).
  assert (Ho : noEmptyAssignment assignedWithoutFiller)
    by (intros f [<-|[]]; discriminate).
  split; (split; [assumption|]).
  - apply (proj1 (@isReadyToSend_iff s Hs)).
    vm_compute. reflexivity.
  - apply (proj2 (proj2 (@isReadyToSend_iff assignedWithoutFiller Ho))).
    right; right; reflexivity.
Defined.

(** ** Assignments refer to listed fillers *)

Lemma removeFiller_assignmentsLive (id : string) (s : State) :
  assignmentsLive s -> assignmentsLive (removeFiller id s).
Proof.
  intros Hs f'. cbn [placedFields removeFiller].
  rewrite in_map_iff. intros (f & <- & Hin).
  specialize (Hs f Hin). unfold unassign.
  destruct (strictEq (PlacedField.assignedTo f) id) eqn:E; [exact I|].
  destruct (PlacedField.assignedTo f) as [r|] eqn:Ha; [|exact I].
  apply removeFiller_keeps_other_ids; [|exact Hs].
  intros ->. simpl in E. rewrite String.eqb_refl in E. discriminate.
Qed.

(** The claim as stated fails: [handleAssignField] checks nothing, so
    called with an id that no filler has it stores that id. *)
Lemma handleAssignField_stores_unlisted_id :
  ~ (forall (s : State) (fieldId : N) (fillerId : string),
        reachable s ->
        assignmentsLive (handleAssignField fieldId fillerId s)).
Proof.
  intros H.
  specialize (H (run walkthrough initialState) 0%N "filler_2000"
                walkthrough_reachable
                (PlacedField.mk 0 1 (ofZ 25) (ofZ 5) "Signature"
                                (Some "filler_2000"))).
  vm_compute in H.
  destruct H as [E|[]]; [left; reflexivity|discriminate E].
Qed.

(** C8, amended. In every state reachable through the interface, every
    [assignedTo] is null or the id of a listed filler, and the property
    is kept by every event the interface offers: the select of a field
    offers only the listed fillers and Unassigned, and removing a filler
    resets the fields assigned to it within the same step. *)
Theorem assignments_live (s : State) :
  reachable s ->
  assignmentsLive s
  /\ (forall e, offered s e -> assignmentsLive (step e s))
  /\ (forall id, assignmentsLive (removeFiller id s))
  /\ (forall fieldId fillerId,
        fillerId = "" \/ In fillerId (map Filler.id (fillers s)) ->
        assignmentsLive (handleAssignField fieldId fillerId s)).
Proof.
  intros Hreach.
  pose proof (reachable_assignmentsLive Hreach) as Hs.
  split; [exact Hs|].
  split; [intros e; apply assignmentsLive_step, Hs|].
  split; [intros id; apply removeFiller_assignmentsLive, Hs|].
  intros fieldId fillerId Hopt f'.
  cbn [placedFields fillers handleAssignField].
  rewrite in_map_iff. intros (f & <- & Hin).
  destruct (PlacedField.id f =? fieldId)%N; [|exact (Hs f Hin)].
  cbn [PlacedField.assignedTo PlacedField.withAssignedTo].
  destruct (orNull_cases fillerId) as [[_ ->]|[Hne ->]]; [exact I|].
  destruct Hopt as [->|Hr]; [contradiction|exact Hr].
Qed.

Lemma assignments_live_witness :
  reachable (run walkthrough initialState)
  /\ assignmentsLive (removeFiller "filler_1000" (run walkthrough initialState)).
Proof.
  split; [exact walkthrough_reachable|].
  apply (proj1 (proj2 (proj2 (@assignments_live _ walkthrough_reachable)))).
Defined.

(** ** Removing a filler *)

Section RemoveFiller.
Variable id : string.

Lemma unassign_unassignedFrom (f : PlacedField.t) :
  unassignedFrom id f (unassign id f).
Proof.
  unfold unassignedFrom, unassign.
  destruct (strictEq (PlacedField.assignedTo f) id) eqn:E.
  - repeat split; try reflexivity.
    intros Hne. apply strictEq_spec in E. contradiction.
  - repeat split; try reflexivity.
    intros Ha. apply strictEq_spec in Ha. congruence.
Qed.

Lemma sameAssignee_refl (a : option string) : sameAssignee a a = true.
Proof.
  destruct a; simpl; auto using String.eqb_refl.
Qed.

Lemma unassign_changes_iff (f : PlacedField.t) :
  negb (sameAssignee (PlacedField.assignedTo f)
                     (PlacedField.assignedTo (unassign id f)))
  = strictEq (PlacedField.assignedTo f) id.
Proof.
  unfold unassign.
  destruct (strictEq (PlacedField.assignedTo f) id) eqn:E.
  - apply strictEq_spec in E. rewrite E. reflexivity.
  - rewrite sameAssignee_refl. reflexivity.
Qed.

Lemma unassign_not_referenced (f : PlacedField.t) :
  strictEq (PlacedField.assignedTo (unassign id f)) id = false.
Proof.
  unfold unassign.
  destruct (strictEq (PlacedField.assignedTo f) id) eqn:E; [reflexivity|exact E].
Qed.

Lemma map_unassign_cascade (l : list PlacedField.t) :
  Forall2 (unassignedFrom id) l (map (unassign id) l)
  /\ reassignedCount l (map (unassign id) l)
     = List.length (filter (fun f => strictEq (PlacedField.assignedTo f) id) l)
  /\ filter (fun f => strictEq (PlacedField.assignedTo f) id) (map (unassign id) l) = [].
Proof.
  unfold reassignedCount.
  induction l as [|f l (IH1 & IH2 & IH3)]; simpl.
  - repeat split; constructor.
  - rewrite unassign_changes_iff, unassign_not_referenced, IH3.
    split; [constructor; auto using unassign_unassignedFrom|].
    split; [|reflexivity].
    destruct (strictEq (PlacedField.assignedTo f) id); simpl; congruence.
Qed.

(** C4. Removing the filler [id] resets [assignedTo] on exactly the
    fields that referenced it, as many as [referencedBy id] counts, and
    leaves every other field and every other attribute as it was; of
    the fillers exactly those with this id go, the rest of the state is
    kept, and fillers and fields change in one step, so that no
    reference to a removed filler is left in the state that follows. *)
Theorem removeFiller_cascade (s : State) :
  let s' := removeFiller id s in
  Forall2 (unassignedFrom id) (placedFields s) (placedFields s')
  /\ reassignedCount (placedFields s) (placedFields s') = referencedBy id s
  /\ referencedBy id s' = 0
  /\ (forall g, In g (fillers s') <-> In g (fillers s) /\ Filler.id g <> id)
  /\ (pdf s' = pdf s /\ numPages s' = numPages s
      /\ newFillerEmail s' = newFillerEmail s /\ nextId s' = nextId s)
  /\ (assignmentsLive s -> assignmentsLive s').
Proof.
  intros s'.
  destruct (map_unassign_cascade (placedFields s)) as (H1 & H2 & H3).
  split; [exact H1|].
  split; [exact H2|].
  split; [unfold referencedBy; subst s'; cbn [placedFields removeFiller];
          rewrite H3; reflexivity|].
  split.
  - intros g. subst s'; cbn [fillers removeFiller]. rewrite filter_In.
    destruct (String.eqb_spec (Filler.id g) id); simpl; intuition congruence.
  - split; [repeat split|].
    apply removeFiller_assignmentsLive.
Qed.
End RemoveFiller.

(** ** Adding a filler *)

Lemma app_one_neq (A : Type) (l : list A) (a : A) : (l ++ [a])%list <> l.
Proof.
  intros E. apply (f_equal (@List.length A)) in E.
  rewrite length_app in E. simpl in E. lia.
Qed.

Lemma duplicateEmail_iff (s : State) :
  existsb (fun f => Filler.email f =? newFillerEmail s) (fillers s) = true
  <-> exists f, In f (fillers s) /\ Filler.email f = newFillerEmail s.
Proof.
  rewrite existsb_exists.
  split; intros (f & Hin & E); exists f; (split; [exact Hin|]);
    apply String.eqb_eq; exact E.
Qed.

Lemma canAddFiller_false_iff (s : State) :
  canAddFiller s = false
  <-> newFillerEmail s = ""
      \/ RegExp.test emailShape (newFillerEmail s) = false
      \/ exists f, In f (fillers s) /\ Filler.email f = newFillerEmail s.
Proof.
  unfold canAddFiller, truthy. rewrite <- duplicateEmail_iff.
  destruct (String.eqb_spec (newFillerEmail s) "") as [E|E];
    destruct (RegExp.test emailShape (newFillerEmail s));
    destruct (existsb _ (fillers s)); simpl; intuition congruence.
Qed.

(** C6. [addFiller] leaves the fillers unchanged exactly when the typed
    email is empty, fails the test against [/\S+@\S+\.\S+/], or equals
    the email of a listed filler character for character; it then leaves
    the whole state unchanged.  Adding a@x.com a second time is rejected
    and one filler remains, while A@x.com is added. *)
Theorem addFiller_rejected_iff (now : N) (s : State) :
  (fillers (addFiller now s) = fillers s
   <-> newFillerEmail s = ""
       \/ RegExp.test emailShape (newFillerEmail s) = false
       \/ exists f, In f (fillers s) /\ Filler.email f = newFillerEmail s)
  /\ (fillers (addFiller now s) = fillers s -> addFiller now s = s)
  /\ (fillers (addFiller now s) <> fillers s ->
      fillers (addFiller now s)
      = (fillers s ++ [Filler.mk (fillerId now) (newFillerEmail s)])%list)
  /\ fillers (addFiller now (retyped "a@x.com"))
     = [Filler.mk "filler_1000" "a@x.com"]
  /\ List.length (fillers (addFiller now (retyped "a@x.com"))) = 1%nat
  /\ List.length (fillers (addFiller now (retyped "A@x.com"))) = 2%nat.
Proof.
  rewrite <- canAddFiller_false_iff.
  unfold addFiller.
  destruct (canAddFiller s) eqn:E; cbn [fillers].
  - repeat split; try reflexivity; try discriminate.
    + intros H; exact (False_ind _ (@app_one_neq _ _ _ H)).
    + intros H; exact (False_ind _ (@app_one_neq _ _ _ H)).
  - repeat split; try reflexivity; try congruence.
Qed.

(** The test looks for the shape anywhere in the string. *)
Example emailShape_samples :
  RegExp.test emailShape "a@x.com" = true
  /\ RegExp.test emailShape "a@x" = false
  /\ RegExp.test emailShape "@x.com" = false
  /\ RegExp.test emailShape "a @x.com" = false
  /\ RegExp.test emailShape "to a@x.com now" = true
  /\ RegExp.test emailShape "" = false.
Proof.
  repeat split; vm_compute; reflexivity.
Qed.

(** ** The payload *)

Lemma getProp_restWithout (key k : string) (o : JSObject) :
  k <> key -> getProp k (restWithout key o) = getProp k o.
Proof.
  intros Hne. induction o as [|[k' v] o IH]; simpl; [reflexivity|].
  destruct (String.eqb_spec k' key) as [->|Hk]; simpl.
  - destruct (String.eqb_spec key k); [congruence|exact IH].
  - destruct (k' =? k); [reflexivity|exact IH].
Qed.

Lemma restWithout_no_key (key : string) (o : JSObject) :
  ~ In key (map fst (restWithout key o)).
Proof.
  unfold restWithout. rewrite in_map_iff. intros ([k v] & <- & Hin).
  apply filter_In in Hin. destruct Hin as [_ Hk]. simpl in Hk.
  rewrite String.eqb_refl in Hk. discriminate.
Qed.

Lemma restWithout_id_strippedOf (f : PlacedField.t) :
  strippedOf f (restWithout "id" (fieldObject f)).
Proof.
  unfold strippedOf. split; [apply restWithout_no_key|].
  repeat split; reflexivity.
Qed.

(** C7. The payload holds the whole filler list, one entry per filler
    in order, each with the filler's id and email, and one entry per
    placed field, in order; a field entry has no [id] property and has
    the field's [pageNum], [left], [top], [type] and [assignedTo].  It is
    the payload [handleSend] prepares. *)
Theorem dataToSend_strips_id (fields : list PlacedField.t) (recipients : list Filler.t) :
  payload_fillers (dataToSend fields recipients) = map fillerObject recipients
  /\ List.length (payload_fillers (dataToSend fields recipients))
     = List.length recipients
  /\ Forall2 carriesFiller recipients (payload_fillers (dataToSend fields recipients))
  /\ List.length (payload_fields (dataToSend fields recipients)) = List.length fields
  /\ Forall2 strippedOf fields (payload_fields (dataToSend fields recipients))
  /\ (forall o, In o (payload_fields (dataToSend fields recipients)) ->
                ~ In "id" (map fst o))
  /\ (forall s p, handleSend s = Prepared p ->
                  p = dataToSend (placedFields s) (fillers s)).
Proof.
  unfold dataToSend; cbn [payload_fillers payload_fields].
  split; [reflexivity|].
  split; [apply length_map|].
  split.
  { induction recipients as [|g l IH]; simpl; constructor; [|exact IH].
    repeat split. }
  split; [apply length_map|].
  split.
  { induction fields as [|f l IH]; simpl; constructor;
      auto using restWithout_id_strippedOf. }
  split.
  { intros o. rewrite in_map_iff. intros (f & <- & _).
    apply restWithout_no_key. }
  intros s p. unfold handleSend.
  destruct (List.length (placedFields s) =? 0)%nat; [discriminate|].
  destruct (existsb _ (placedFields s)); [discriminate|].
  destruct (List.length (fillers s) =? 0)%nat; [discriminate|].
  intros E; injection E as <-. reflexivity.
Qed.

(** ** Filler ids *)

(** Two filler ids are equal exactly when the clock readings are. *)
Lemma fillerId_inj (now1 now2 : N) :
  fillerId now1 = fillerId now2 -> now1 = now2.
Proof.
  unfold fillerId. simpl. intros E. injection E as E.
  apply DecimalN.Unsigned.to_uint_inj.
  apply (f_equal NilEmpty.uint_of_string) in E.
  rewrite !NilEmpty.usu in E. congruence.
Qed.

(** C10 (ids can repeat). The id of a filler is the clock reading alone:
    two fillers added at the same reading of [Date.now()] get the same
    id, and removing one by its id then removes both. *)
Theorem addFiller_same_clock_same_id (now : N) :
  reachable (run (sameClock now) initialState)
  /\ fillers (run (sameClock now) initialState)
  = [ Filler.mk (fillerId now) "a@x.com"; Filler.mk (fillerId now) "b@x.com" ]
  /\ fillers (removeFiller (fillerId now) (run (sameClock now) initialState)) = []
  /\ fillers (run (sameClock 1700000000000) initialState)
     = [ Filler.mk "filler_1700000000000" "a@x.com";
         Filler.mk "filler_1700000000000" "b@x.com" ].
Proof.
  assert (E : fillers (run (sameClock now) initialState)
              = [ Filler.mk (fillerId now) "a@x.com";
                  Filler.mk (fillerId now) "b@x.com" ])
    by reflexivity.
  split.
  { unfold run, sameClock; cbn [fold_left].
    repeat apply reach_step; try exact reach_init; exact I. }
  split; [exact E|].
  split; [|vm_compute; reflexivity].
  cbn [fillers removeFiller]. rewrite E. simpl.
  rewrite String.eqb_refl. reflexivity.
Qed.

(** * Further properties of the handlers *)

(** ** Field ids *)

Lemma map_keeps (A B : Type) (key : A -> B) (g : A -> A) (l : list A) :
  (forall a, key (g a) = key a) -> map key (map g l) = map key l.
Proof.
  intros Hg. rewrite map_map. apply map_ext. exact Hg.
Qed.

Lemma unassign_id (r : string) (f : PlacedField.t) :
  PlacedField.id (unassign r f) = PlacedField.id f.
Proof.
  unfold unassign. destruct (strictEq _ r); reflexivity.
Qed.

Lemma handleMoveField_ids (id : N) (l t : number) (s : State) :
  map PlacedField.id (placedFields (handleMoveField id l t s))
  = map PlacedField.id (placedFields s).
Proof.
  cbn [placedFields handleMoveField]. apply map_keeps.
  intros f. destruct (PlacedField.id f =? id)%N; reflexivity.
Qed.

Lemma handleAssignField_ids (fieldId : N) (r : string) (s : State) :
  map PlacedField.id (placedFields (handleAssignField fieldId r s))
  = map PlacedField.id (placedFields s).
Proof.
  cbn [placedFields handleAssignField]. apply map_keeps.
  intros f. destruct (PlacedField.id f =? fieldId)%N; reflexivity.
Qed.

Lemma addFiller_nextId (now : N) (s : State) :
  nextId (addFiller now s) = nextId s.
Proof.
  unfold addFiller. destruct (canAddFiller s); reflexivity.
Qed.

Lemma ids_below (s : State) (bound : N) :
  (forall f, In f (placedFields s) -> (PlacedField.id f < bound)%N)
  <-> (forall i, In i (map PlacedField.id (placedFields s)) -> (i < bound)%N).
Proof.
  split.
  - intros H i Hi. apply in_map_iff in Hi. destruct Hi as (f & <- & Hf). auto.
  - intros H f Hf. apply H, in_map, Hf.
Qed.

Lemma fieldIdsFresh_same_ids (s s' : State) :
  map PlacedField.id (placedFields s') = map PlacedField.id (placedFields s) ->
  nextId s' = nextId s ->
  fieldIdsFresh s -> fieldIdsFresh s'.
Proof.
  unfold fieldIdsFresh. intros Hids Hnext [Hnd Hlt].
  rewrite ids_below in *. rewrite Hids, Hnext. auto.
Qed.

Lemma fieldIdsFresh_handleDrop (type : string) (pageNum : nat) (l t : number)
      (s : State) :
  fieldIdsFresh s -> fieldIdsFresh (handleDrop type pageNum l t s).
Proof.
  unfold fieldIdsFresh. intros [Hnd Hlt]. rewrite ids_below in *.
  cbn [placedFields nextId handleDrop]. rewrite map_app. simpl.
  split.
  - apply NoDup_app; [exact Hnd| |].
    + repeat constructor. intros [].
    + intros i Hi [<-|[]]. specialize (Hlt _ Hi). lia.
  - intros i Hi. apply in_app_iff in Hi. destruct Hi as [Hi|[<-|[]]].
    + specialize (Hlt _ Hi). lia.
    + lia.
Qed.

Lemma fieldIdsFresh_step (e : Event) (s : State) :
  fieldIdsFresh s -> fieldIdsFresh (step e s).
Proof.
  intros Hs.
  destruct e as [doc|v|now|r|pageNum dropRef item monitor|fid r]; simpl.
  - split; [constructor|intros f []].
  - exact Hs.
  - apply fieldIdsFresh_same_ids with (s := s); auto using addFiller_nextId.
    rewrite addFiller_placedFields. reflexivity.
  - apply fieldIdsFresh_same_ids with (s := s); auto.
    cbn [placedFields removeFiller]. apply map_keeps, unassign_id.
  - destruct (drop_cases pageNum dropRef item monitor s)
      as [->|[(id & l & t & ->)|(type & l & t & ->)]].
    + exact Hs.
    + apply fieldIdsFresh_same_ids with (s := s); auto using handleMoveField_ids.
    + apply fieldIdsFresh_handleDrop, Hs.
  - apply fieldIdsFresh_same_ids with (s := s); auto using handleAssignField_ids.
Qed.

(** X1. In every reachable state the ids of the placed fields are
    pairwise distinct and all below [nextId]: a new field takes the
    counter, and no handler changes the id of a field. *)
Theorem reachable_fieldIdsFresh (s : State) :
  reachable s -> fieldIdsFresh s.
Proof.
  induction 1 as [|s e _ IH _].
  - split; [constructor|intros f []].
  - apply fieldIdsFresh_step, IH.
Qed.

Lemma reachable_fieldIdsFresh_witness :
  reachable (run walkthrough initialState)
  /\ fieldIdsFresh (run walkthrough initialState).
Proof.
  split; [exact walkthrough_reachable|].
  exact (@reachable_fieldIdsFresh _ walkthrough_reachable).
Defined.

(** ** Filler emails *)

Lemma NoDup_map_filter (A B : Type) (key : A -> B) (p : A -> bool) (l : list A) :
  NoDup (map key l) -> NoDup (map key (filter p l)).
Proof.
  induction l as [|a l IH]; simpl; intros Hnd; [constructor|].
  inversion Hnd as [|? ? Hnotin Hnd']; subst.
  destruct (p a); simpl; auto.
  constructor; auto.
  rewrite in_map_iff in *. intros (b & Hb & Hin).
  apply Hnotin. exists b. apply filter_In in Hin. tauto.
Qed.

Lemma canAddFiller_true (s : State) :
  canAddFiller s = true ->
  newFillerEmail s <> ""
  /\ RegExp.test emailShape (newFillerEmail s) = true
  /\ ~ In (newFillerEmail s) (map Filler.email (fillers s)).
Proof.
  intros Hcan.
  destruct (canAddFiller_false_iff s) as [_ Hfalse].
  repeat split.
  - intros E. rewrite Hfalse in Hcan by auto. discriminate.
  - destruct (RegExp.test emailShape (newFillerEmail s)) eqn:E; [reflexivity|].
    rewrite Hfalse in Hcan by auto. discriminate.
  - rewrite in_map_iff. intros (f & E & Hin).
    rewrite Hfalse in Hcan by eauto. discriminate.
Qed.

Lemma emailsAccepted_addFiller (now : N) (s : State) :
  emailsAccepted s -> emailsAccepted (addFiller now s).
Proof.
  unfold addFiller. destruct (canAddFiller s) eqn:Hcan; [|auto].
  destruct (canAddFiller_true s Hcan) as (Hne & Htest & Hnew).
  intros [Hnd Hall]. unfold emailsAccepted. cbn [fillers].
  split.
  - rewrite map_app. simpl. apply NoDup_app; [exact Hnd| |].
    + repeat constructor. intros [].
    + intros e He [<-|[]]. contradiction.
  - intros f Hf. apply in_app_iff in Hf. destruct Hf as [Hf|[<-|[]]]; auto.
Qed.

Lemma emailsAccepted_removeFiller (id : string) (s : State) :
  emailsAccepted s -> emailsAccepted (removeFiller id s).
Proof.
  intros [Hnd Hall]. unfold emailsAccepted. cbn [fillers removeFiller].
  split; [apply NoDup_map_filter, Hnd|].
  intros f Hf. apply filter_In in Hf. apply Hall, Hf.
Qed.

Lemma emailsAccepted_step (e : Event) (s : State) :
  emailsAccepted s -> emailsAccepted (step e s).
Proof.
  intros Hs.
  destruct e as [doc|v|now|r|pageNum dropRef item monitor|fid r]; simpl.
  - split; [constructor|intros f []].
  - exact Hs.
  - apply emailsAccepted_addFiller, Hs.
  - apply emailsAccepted_removeFiller, Hs.
  - unfold emailsAccepted. rewrite drop_fillers. exact Hs.
  - exact Hs.
Qed.

(** X2. In every reachable state no two fillers have the same email,
    and every listed email is non-empty and passed the test against
    [/\S+@\S+\.\S+/]. *)
Theorem reachable_emailsAccepted (s : State) :
  reachable s -> emailsAccepted s.
Proof.
  induction 1 as [|s e _ IH _].
  - split; [constructor|intros f []].
  - apply emailsAccepted_step, IH.
Qed.

Lemma reachable_emailsAccepted_witness :
  reachable (run walkthrough initialState)
  /\ emailsAccepted (run walkthrough initialState).
Proof.
  split; [exact walkthrough_reachable|].
  exact (@reachable_emailsAccepted _ walkthrough_reachable).
Defined.

(** X3. A second [addFiller] right after a first one adds nothing: a
    successful addition clears the input, and a rejected one leaves the
    state that rejected it. *)
Theorem addFiller_twice (now1 now2 : N) (s : State) :
  addFiller now2 (addFiller now1 s) = addFiller now1 s.
Proof.
  unfold addFiller. destruct (canAddFiller s) eqn:Hcan.
  - reflexivity.
  - rewrite Hcan. reflexivity.
Qed.

(** ** Removing fillers, again *)

Lemma unassign_comm (a b : string) (f : PlacedField.t) :
  unassign a (unassign b f) = unassign b (unassign a f).
Proof.
  unfold unassign.
  destruct (strictEq (PlacedField.assignedTo f) a) eqn:Ea;
    destruct (strictEq (PlacedField.assignedTo f) b) eqn:Eb;
    cbn [PlacedField.assignedTo PlacedField.withAssignedTo strictEq];
    rewrite ?Ea, ?Eb; reflexivity.
Qed.

Lemma unassign_idem (a : string) (f : PlacedField.t) :
  unassign a (unassign a f) = unassign a f.
Proof.
  unfold unassign.
  destruct (strictEq (PlacedField.assignedTo f) a) eqn:Ea;
    cbn [PlacedField.assignedTo PlacedField.withAssignedTo strictEq];
    rewrite ?Ea; reflexivity.
Qed.

Lemma filter_comm (A : Type) (p q : A -> bool) (l : list A) :
  filter p (filter q l) = filter q (filter p l).
Proof.
  induction l as [|a l IH]; simpl; [reflexivity|].
  destruct (p a) eqn:Ep; destruct (q a) eqn:Eq; simpl;
    rewrite ?Ep, ?Eq, IH; reflexivity.
Qed.

Lemma filter_idem (A : Type) (p : A -> bool) (l : list A) :
  filter p (filter p l) = filter p l.
Proof.
  induction l as [|a l IH]; simpl; [reflexivity|].
  destruct (p a) eqn:Ep; simpl; rewrite ?Ep, IH; reflexivity.
Qed.

(** X4. Removals commute, and removing the same id again changes
    nothing. *)
Theorem removeFiller_comm_idem (a b : string) (s : State) :
  removeFiller a (removeFiller b s) = removeFiller b (removeFiller a s)
  /\ removeFiller a (removeFiller a s) = removeFiller a s.
Proof.
  unfold removeFiller; cbn [pdf numPages placedFields fillers newFillerEmail nextId].
  split; f_equal.
  - rewrite !map_map. apply map_ext, unassign_comm.
  - apply filter_comm.
  - rewrite map_map. apply map_ext, unassign_idem.
  - apply filter_idem.
Qed.

Lemma map_id_on (A : Type) (g : A -> A) (l : list A) :
  (forall a, In a l -> g a = a) -> map g l = l.
Proof.
  induction l as [|a l IH]; simpl; intros Hg; [reflexivity|].
  rewrite Hg, IH by auto. reflexivity.
Qed.

Lemma filter_all (A : Type) (p : A -> bool) (l : list A) :
  (forall a, In a l -> p a = true) -> filter p l = l.
Proof.
  induction l as [|a l IH]; simpl; intros Hp; [reflexivity|].
  rewrite Hp, IH by auto. reflexivity.
Qed.

(** X5. In a state whose assignments all refer to listed fillers,
    removing an id that no listed filler has leaves the state as it
    is. *)
Theorem removeFiller_unlisted (id : string) (s : State) :
  assignmentsLive s -> ~ In id (map Filler.id (fillers s)) ->
  removeFiller id s = s.
Proof.
  intros Hlive Hnot. unfold removeFiller.
  rewrite map_id_on, filter_all; [destruct s; reflexivity| |].
  - intros g Hg. destruct (String.eqb_spec (Filler.id g) id) as [E|]; [|reflexivity].
    exfalso. apply Hnot. rewrite <- E. apply in_map, Hg.
  - intros f Hf. unfold unassign.
    destruct (strictEq (PlacedField.assignedTo f) id) eqn:E; [|reflexivity].
    apply strictEq_spec in E. specialize (Hlive f Hf). rewrite E in Hlive.
    contradiction.
Qed.

Lemma removeFiller_unlisted_witness :
  let s := run walkthrough initialState in
  assignmentsLive s /\ ~ In "filler_2000" (map Filler.id (fillers s))
  /\ removeFiller "filler_2000" s = s.
Proof.
  intros s.
  assert (Hlive : assignmentsLive s)
    by exact (reachable_assignmentsLive walkthrough_reachable).
  assert (Hnot : ~ In "filler_2000" (map Filler.id (fillers s)))
    by (vm_compute; intros [E|[]]; discriminate E).
  repeat (split; [assumption|]).
  exact (@removeFiller_unlisted "filler_2000" s Hlive Hnot).
Defined.

(** ** Readiness lost *)

Lemma sendDisabled_unassigned (s : State) (f : PlacedField.t) :
  In f (placedFields s) -> PlacedField.assignedTo f = None ->
  isReadyToSend s = false.
Proof.
  intros Hin Hnone. unfold isReadyToSend, sendDisabled.
  assert (E : existsb (fun f => isFalsy (PlacedField.assignedTo f)) (placedFields s)
              = true).
  { apply existsb_exists. exists f. rewrite Hnone. auto. }
  rewrite E, !orb_true_r. reflexivity.
Qed.

(** X6. Removing a filler that some field is assigned to leaves the
    document not ready to send. *)
Theorem removeFiller_referenced_not_ready (id : string) (s : State) :
  (0 < referencedBy id s)%nat -> isReadyToSend (removeFiller id s) = false.
Proof.
  unfold referencedBy. intros Hpos.
  destruct (filter _ (placedFields s)) as [|f l] eqn:E; [simpl in Hpos; lia|].
  assert (Hf : In f (filter (fun f => strictEq (PlacedField.assignedTo f) id)
                            (placedFields s)))
    by (rewrite E; left; reflexivity).
  apply filter_In in Hf. destruct Hf as [Hin Href].
  apply sendDisabled_unassigned with (f := unassign id f).
  - cbn [placedFields removeFiller]. apply in_map, Hin.
  - unfold unassign. rewrite Href. reflexivity.
Qed.

Lemma removeFiller_referenced_not_ready_witness :
  let s := run walkthrough initialState in
  (0 < referencedBy "filler_1000" s)%nat
  /\ isReadyToSend s = true
  /\ isReadyToSend (removeFiller "filler_1000" s) = false.
Proof.
  intros s.
  assert (Hpos : (0 < referencedBy "filler_1000" s)%nat)
    by (vm_compute; lia).
  split; [exact Hpos|].
  split; [vm_compute; reflexivity|].
  exact (@removeFiller_referenced_not_ready "filler_1000" s Hpos).
Defined.

(** X7. A drop from the sidebar that reaches [handleDrop] leaves the
    document not ready to send, whatever the coordinates: the new field
    is unassigned. *)
Theorem drop_new_field_not_ready (pageNum : nat) (box : DOMRect number)
        (type : string) (delta : option (XYCoord number))
        (offset : XYCoord number) (s : State) :
  isReadyToSend
    (drop pageNum (Some box) (SidebarItem type) (mkMonitor delta (Some offset)) s)
  = false
  /\ List.length (placedFields
                    (drop pageNum (Some box) (SidebarItem type)
                          (mkMonitor delta (Some offset)) s))
     = S (List.length (placedFields s)).
Proof.
  unfold drop; cbn [getClientOffset].
  destruct (placeNew offset box) as [l t].
  split.
  - apply sendDisabled_unassigned
      with (f := PlacedField.mk (nextId s) pageNum l t type None);
      [|reflexivity].
    cbn [placedFields handleDrop]. apply in_app_iff. right. left. reflexivity.
  - cbn [placedFields handleDrop]. rewrite length_app. simpl. lia.
Qed.

(** ** The alerts of [handleSend] *)

(** X8. [handleSend] reports the missing fields first and unassigned
    fields second.  Its third alert, for a missing filler, is never
    shown in a reachable state: when every placed field is assigned, the
    filler of the first field is listed. *)
Theorem handleSend_alerts (s : State) :
  reachable s ->
  (handleSend s = Alert "Please place at least one field on the document."
   <-> placedFields s = [])
  /\ (handleSend s = Alert "Please assign all placed fields to a filler."
      <-> placedFields s <> []
          /\ exists f, In f (placedFields s) /\ PlacedField.assignedTo f = None)
  /\ handleSend s <> Alert "Please add at least one filler.".
Proof.
  intros Hreach.
  pose proof (anyUnassigned_iff (reachable_noEmptyAssignment Hreach)) as Hany.
  pose proof (reachable_assignmentsLive Hreach) as Hlive.
  pose proof (length_eqb_0 (placedFields s)) as Hf.
  pose proof (length_eqb_0 (fillers s)) as Hr.
  unfold handleSend.
  destruct (List.length (placedFields s) =? 0)%nat.
  { flag_to_prop. repeat split; try discriminate; try tauto. }
  destruct (existsb _ (placedFields s)) eqn:Hex.
  { repeat flag_to_prop. repeat split; try discriminate; try tauto. }
  destruct (List.length (fillers s) =? 0)%nat.
  - exfalso. repeat flag_to_prop.
    destruct (placedFields s) as [|f l] eqn:Efields; [contradiction|].
    assert (Hin : In f (placedFields s)) by (rewrite Efields; left; reflexivity).
    specialize (Hlive f Hin).
    destruct (PlacedField.assignedTo f) as [r|] eqn:Ha.
    + rewrite Hr in Hlive. exact Hlive.
    + apply Hany. exists f. split; [left; reflexivity|exact Ha].
  - repeat flag_to_prop. repeat split; try discriminate; try tauto.
Qed.

Lemma handleSend_alerts_witness :
  let s := removeFiller "filler_1000" (run walkthrough initialState) in
  reachable s
  /\ handleSend s = Alert "Please assign all placed fields to a filler.".
Proof.
  intros s.
  assert (Hreach : reachable s).
  { apply (@reach_step _ (RemoveClicked "filler_1000") walkthrough_reachable).
    vm_compute. auto. }
  split; [exact Hreach|].
  apply (proj1 (proj2 (@handleSend_alerts s Hreach))).
  vm_compute. split; [discriminate|].
  eexists. split; [left; reflexivity|reflexivity].
Defined.

(** ** Assignments and moves compose *)

Lemma assignTo_overrides (i : N) (a b : option string) (f : PlacedField.t) :
  (fun field => if (PlacedField.id field =? i)%N
                then PlacedField.withAssignedTo field b else field)
    (if (PlacedField.id f =? i)%N then PlacedField.withAssignedTo f a else f)
  = if (PlacedField.id f =? i)%N then PlacedField.withAssignedTo f b else f.
Proof.
  cbv beta. destruct (PlacedField.id f =? i)%N eqn:E;
    cbn [PlacedField.id PlacedField.withAssignedTo]; rewrite E; reflexivity.
Qed.

(** X9. The last assignment of a field wins, assignments of different
    fields commute, and choosing Unassigned resets the field to null. *)
Theorem handleAssignField_compose (i j : N) (a b : string) (s : State) :
  handleAssignField i b (handleAssignField i a s) = handleAssignField i b s
  /\ (i <> j ->
      handleAssignField i a (handleAssignField j b s)
      = handleAssignField j b (handleAssignField i a s))
  /\ (forall f, In f (placedFields (handleAssignField i "" s)) ->
                PlacedField.id f = i -> PlacedField.assignedTo f = None).
Proof.
  unfold handleAssignField;
    cbn [pdf numPages placedFields fillers newFillerEmail nextId].
  split; [|split].
  - f_equal. rewrite map_map. apply map_ext. intros f.
    apply assignTo_overrides.
  - intros Hij. f_equal. rewrite !map_map. apply map_ext. intros f.
    destruct (N.eqb_spec (PlacedField.id f) i) as [Ei|Ei];
      destruct (N.eqb_spec (PlacedField.id f) j) as [Ej|Ej];
      cbn [PlacedField.id PlacedField.withAssignedTo];
      try (exfalso; congruence).
    + destruct (N.eqb_spec (PlacedField.id f) i); [|contradiction].
      destruct (N.eqb_spec (PlacedField.id f) j); [contradiction|].
      reflexivity.
    + destruct (N.eqb_spec (PlacedField.id f) i); [contradiction|].
      destruct (N.eqb_spec (PlacedField.id f) j); [|contradiction].
      reflexivity.
    + destruct (N.eqb_spec (PlacedField.id f) i); [contradiction|].
      destruct (N.eqb_spec (PlacedField.id f) j); [contradiction|].
      reflexivity.
  - intros f' Hin Hid. apply in_map_iff in Hin. destruct Hin as (f & <- & _).
    destruct (N.eqb_spec (PlacedField.id f) i) as [E|E]; [reflexivity|].
    contradiction.
Qed.

(** X10. A move or an assignment addressed to an id that no placed
    field has leaves the state as it is. *)
Theorem stale_id_ignored (id : N) (l t : number) (r : string) (s : State) :
  ~ In id (map PlacedField.id (placedFields s)) ->
  handleMoveField id l t s = s /\ handleAssignField id r s = s.
Proof.
  intros Hnot.
  assert (Hne : forall f, In f (placedFields s) -> (PlacedField.id f =? id)%N = false).
  { intros f Hf. apply N.eqb_neq. intros E. apply Hnot. rewrite <- E.
    apply in_map, Hf. }
  unfold handleMoveField, handleAssignField.
  rewrite !map_id_on; [destruct s; split; reflexivity| |];
    intros f Hf; rewrite (Hne f Hf); reflexivity.
Qed.

Lemma stale_id_ignored_witness :
  let s := run walkthrough initialState in
  ~ In 7%N (map PlacedField.id (placedFields s))
  /\ handleMoveField 7 (ofZ 10) (ofZ 10) s = s
  /\ handleAssignField 7 "filler_1000" s = s.
Proof.
  intros s.
  assert (Hnot : ~ In 7%N (map PlacedField.id (placedFields s)))
    by (vm_compute; intros [E|[]]; discriminate E).
  split; [exact Hnot|].
  exact (@stale_id_ignored 7%N (ofZ 10) (ofZ 10) "filler_1000" s Hnot).
Defined.

(** ** What a drop leaves alone *)

Lemma movedOnly_refl (l : list PlacedField.t) : Forall2 movedOnly l l.
Proof.
  induction l; constructor; auto. repeat split.
Qed.

Lemma handleMoveField_movedOnly (id : N) (l t : number) (s : State) :
  Forall2 movedOnly (placedFields s) (placedFields (handleMoveField id l t s)).
Proof.
  cbn [placedFields handleMoveField].
  induction (placedFields s) as [|f fs IH]; simpl; constructor; auto.
  destruct (PlacedField.id f =? id)%N; repeat split.
Qed.

(** X11. Whatever is dropped on whichever page, the fields already
    placed keep their id, page, type and assignment, in the same order;
    at most one field is added, unassigned, with the counter as id and
    on the page that received the drop; fillers and the typed email are
    untouched. *)
Theorem drop_frame (pageNum : nat) (dropRef : option (DOMRect number))
        (item : DragItem) (monitor : DropTargetMonitor) (s : State) :
  let s' := drop pageNum dropRef item monitor s in
  (exists kept added,
      placedFields s' = (kept ++ added)%list
      /\ Forall2 movedOnly (placedFields s) kept
      /\ (added = []
          \/ exists type l t,
               added = [PlacedField.mk (nextId s) pageNum l t type None]))
  /\ fillers s' = fillers s
  /\ newFillerEmail s' = newFillerEmail s
  /\ pdf s' = pdf s /\ numPages s' = numPages s.
Proof.
  intros s'; subst s'.
  destruct (drop_cases pageNum dropRef item monitor s)
    as [->|[(id & l & t & ->)|(type & l & t & ->)]].
  - split; [|repeat split].
    exists (placedFields s), []. rewrite app_nil_r.
    auto using movedOnly_refl.
  - split; [|repeat split].
    exists (placedFields (handleMoveField id l t s)), []. rewrite app_nil_r.
    auto using handleMoveField_movedOnly.
  - split; [|repeat split].
    exists (placedFields s), [PlacedField.mk (nextId s) pageNum l t type None].
    split; [reflexivity|]. split; [apply movedOnly_refl|].
    right. eauto.
Qed.

(** ** Stored coordinates on laid-out pages *)

Lemma reachableLaidOut_reachable (s : State) :
  reachableLaidOut s -> reachable s.
Proof.
  induction 1 as [|s e _ IH [Hoff _]]; [constructor|].
  apply reach_step; assumption.
Qed.

Lemma clamp_isClamped (v : number) : isNaN v = false -> isClamped (clamp v).
Proof.
  intros Hv. split; [apply clamp_inRange, Hv|].
  unfold clamp. destruct (leb v zero) eqn:H0; [discriminate|].
  destruct (leb hundred v); [discriminate|].
  intros ->. discriminate H0.
Qed.

Lemma inRange_isFinite (v : number) : inRange v -> isFinite v = true.
Proof.
  intros [Hlo Hhi]. destruct v as [sv|sv| |sv m e]; try reflexivity.
  - destruct sv; discriminate.
  - discriminate.
Qed.

Lemma compare_finite_Eq (m1 m2 : positive) (e1 e2 : Z) :
  SFcompare (S754_finite false m1 e1) (S754_finite false m2 e2) = Some Eq ->
  S754_finite false m1 e1 = S754_finite false m2 e2.
Proof.
  simpl. destruct (e1 ?= e2)%Z eqn:He; try discriminate.
  apply Z.compare_eq in He. subst e2.
  destruct (Pos.compare_cont Eq m1 m2) eqn:Hm; try discriminate.
  apply (Pos.compare_eq m1 m2) in Hm. subst m2. reflexivity.
Qed.

(** A stored coordinate is left alone by the clamp. *)
Lemma clamp_fixes_clamped (v : number) : isClamped v -> clamp v = v.
Proof.
  intros [[Hlo Hhi] Hnz]. unfold clamp.
  destruct v as [sv|sv| |sv m e]; try discriminate.
  - destruct sv; [contradiction|reflexivity].
  - destruct sv; discriminate.
  - destruct sv; [discriminate|].
    change (leb (S754_finite false m e) zero) with false. cbv iota.
    unfold leb, SFleb, hundred in *.
    rewrite compare_finite_antisym.
    destruct (SFcompare (S754_finite false m e) _) as [[]|] eqn:Hc;
      try reflexivity; try discriminate Hhi.
    symmetry. apply compare_finite_Eq, Hc.
Qed.

Lemma constrain_isClamped (v : number) : isNaN v = false -> isClamped (constrain v).
Proof.
  intros Hv. rewrite constrain_clamp by exact Hv. apply clamp_isClamped, Hv.
Qed.

Lemma placeNew_isClamped (offset : XYCoord number) (box : DOMRect number) :
  finiteXY offset -> finiteRect box -> positiveSize box ->
  isClamped (fst (placeNew offset box)) /\ isClamped (snd (placeNew offset box)).
Proof.
  intros [Hx Hy] (Hl & Ht & Hw & Hh) [Hwpos Hhpos].
  split; apply constrain_isClamped, percent_not_nan; auto using sub_not_nan.
Qed.

Lemma moveExisting_isClamped (l t : number) (delta : XYCoord number)
      (box : DOMRect number) :
  isFinite l = true -> isFinite t = true ->
  finiteXY delta -> finiteRect box -> positiveSize box ->
  isClamped (fst (moveExisting l t delta box))
  /\ isClamped (snd (moveExisting l t delta box)).
Proof.
  intros Hl Ht [Hx Hy] (_ & _ & Hw & Hh) [Hwpos Hhpos].
  split; apply constrain_isClamped, add_not_nan; auto;
    apply percent_not_nan; auto using isFinite_not_nan.
Qed.

Lemma coordinatesClamped_handleMoveField (id : N) (l t : number) (s : State) :
  isClamped l -> isClamped t ->
  coordinatesClamped s -> coordinatesClamped (handleMoveField id l t s).
Proof.
  intros Hl Ht Hs f'. cbn [placedFields handleMoveField].
  rewrite in_map_iff. intros (f & <- & Hin).
  destruct (PlacedField.id f =? id)%N; [split; assumption|exact (Hs f Hin)].
Qed.

Lemma coordinatesClamped_handleDrop (type : string) (pageNum : nat)
      (l t : number) (s : State) :
  isClamped l -> isClamped t ->
  coordinatesClamped s -> coordinatesClamped (handleDrop type pageNum l t s).
Proof.
  intros Hl Ht Hs f'. cbn [placedFields handleDrop].
  rewrite in_app_iff. intros [Hin|[<-|[]]]; [exact (Hs f' Hin)|].
  split; assumption.
Qed.

Lemma coordinatesClamped_step (e : Event) (s : State) :
  coordinatesClamped s -> laidOut s e -> coordinatesClamped (step e s).
Proof.
  intros Hs [_ Hlaid].
  destruct e as [doc|v|now|r|pageNum dropRef item monitor|fid r]; simpl.
  - intros f [].
  - exact Hs.
  - intros f. rewrite addFiller_placedFields. apply Hs.
  - intros f'. cbn [placedFields removeFiller].
    rewrite in_map_iff. intros (f & <- & Hin). unfold unassign.
    destruct (strictEq _ r); exact (Hs f Hin).
  - destruct Hlaid as (_ & Hbox & Hdelta & Hoffset & Hitem).
    unfold drop. destruct dropRef as [box|]; [|exact Hs].
    destruct Hbox as [Hfin Hpos].
    destruct item as [type|id l t type].
    + destruct (getClientOffset monitor) as [offset|]; [|exact Hs].
      destruct (@placeNew_isClamped offset box Hoffset Hfin Hpos) as [H1 H2].
      destruct (placeNew offset box) as [nl nt].
      apply coordinatesClamped_handleDrop; assumption.
    + destruct (getDifferenceFromInitialOffset monitor) as [delta|]; [|exact Hs].
      destruct Hitem as (f & Hf & Eitem). injection Eitem as -> -> -> ->.
      destruct (Hs f Hf) as [[Hfl _] [Hft _]].
      destruct (@moveExisting_isClamped _ _ delta box
                  (inRange_isFinite Hfl) (inRange_isFinite Hft)
                  Hdelta Hfin Hpos) as [H1 H2].
      destruct (moveExisting _ _ delta box) as [nl nt].
      apply coordinatesClamped_handleMoveField; assumption.
  - intros f'. cbn [placedFields handleAssignField].
    rewrite in_map_iff. intros (f & <- & Hin).
    destruct (PlacedField.id f =? fid)%N; exact (Hs f Hin).
Qed.

Lemma walkthrough_laidOut : reachableLaidOut (run walkthrough initialState).
Proof.
  unfold run, walkthrough; cbn [fold_left].
  repeat apply laid_step; try exact laid_init;
    try (split; exact I).
  - split; [exact I|]. vm_compute. repeat split; auto.
  - vm_compute. auto.
Qed.

(** X12. As long as every drop lands on a displayed page whose box has
    positive width and height, with finite pointer readings, every
    stored [left] and [top] is within 0..100 (and is not NaN, an
    infinity or the negative zero). *)
Theorem reachableLaidOut_coordinatesClamped (s : State) :
  reachableLaidOut s -> coordinatesClamped s.
Proof.
  induction 1 as [|s e _ IH Hlaid].
  - intros f [].
  - apply coordinatesClamped_step; assumption.
Qed.

Lemma reachableLaidOut_coordinatesClamped_witness :
  reachableLaidOut (run walkthrough initialState)
  /\ coordinatesClamped (run walkthrough initialState).
Proof.
  split; [exact walkthrough_laidOut|].
  exact (@reachableLaidOut_coordinatesClamped _ walkthrough_laidOut).
Defined.

(** ** Dropping a field where it was picked up *)

Lemma zero_percent (w : number) :
  isFinite w = true -> ltb zero w = true ->
  mul (div zero w) hundred = zero.
Proof.
  intros Hw Hpos. destruct (positive_finite w Hw Hpos) as (m & e & ->).
  reflexivity.
Qed.

Lemma add_zero_clamped (v : number) : isClamped v -> add v zero = v.
Proof.
  intros [[Hlo Hhi] Hnz].
  destruct v as [sv|sv| |sv m e]; try discriminate; try reflexivity.
  destruct sv; [contradiction|reflexivity].
Qed.

Lemma moveExisting_zero_delta (l t : number) (box : DOMRect number) :
  isClamped l -> isClamped t -> finiteRect box -> positiveSize box ->
  moveExisting l t (mkXY zero zero) box = (l, t).
Proof.
  intros Hl Ht (_ & _ & Hw & Hh) [Hwpos Hhpos].
  unfold moveExisting; cbn [x y num_add num_mul num_div num_hundred Binary64].
  rewrite !zero_percent, !add_zero_clamped by assumption.
  rewrite !constrain_clamp
    by (apply inRange_not_nan; first [apply Hl | apply Ht]).
  rewrite !clamp_fixes_clamped by assumption. reflexivity.
Qed.

Lemma unique_by_id (l : list PlacedField.t) (f g : PlacedField.t) :
  NoDup (map PlacedField.id l) -> In f l -> In g l ->
  PlacedField.id g = PlacedField.id f -> g = f.
Proof.
  induction l as [|a l IH]; simpl; intros Hnd Hf Hg E; [contradiction|].
  inversion Hnd as [|? ? Hnotin Hnd']; subst.
  destruct Hf as [->|Hf]; destruct Hg as [->|Hg]; auto.
  - exfalso. apply Hnotin. rewrite <- E. apply in_map, Hg.
  - exfalso. apply Hnotin. rewrite E. apply in_map, Hf.
Qed.

Lemma fieldIdsFresh_of_reachable (s : State) :
  reachable s -> fieldIdsFresh s.
Proof.
  induction 1 as [|s e _ IH _]; [|apply fieldIdsFresh_step, IH].
  split; [constructor|intros f []].
Qed.

Lemma coordinatesClamped_of_laidOut (s : State) :
  reachableLaidOut s -> coordinatesClamped s.
Proof.
  induction 1 as [|s e _ IH Hlaid]; [intros f []|].
  apply coordinatesClamped_step; assumption.
Qed.

(** X13. On laid-out pages, picking a placed field up and dropping it
    with no pointer movement leaves the whole state as it was. *)
Theorem drop_in_place (s : State) (f : PlacedField.t) (box : DOMRect number)
        (pageNum : nat) (pointer : option (XYCoord number)) :
  reachableLaidOut s -> In f (placedFields s) ->
  finiteRect box -> positiveSize box ->
  drop pageNum (Some box) (dragItemOf f)
       (mkMonitor (Some (mkXY zero zero)) pointer) s = s.
Proof.
  intros Hlaid Hf Hfin Hpos.
  destruct (coordinatesClamped_of_laidOut Hlaid f Hf) as [Hl Ht].
  pose proof (fieldIdsFresh_of_reachable (reachableLaidOut_reachable Hlaid))
    as [Hnd _].
  unfold drop, dragItemOf; cbn [getDifferenceFromInitialOffset].
  rewrite moveExisting_zero_delta by assumption.
  unfold handleMoveField. rewrite map_id_on; [destruct s; reflexivity|].
  intros g Hg. destruct (N.eqb_spec (PlacedField.id g) (PlacedField.id f)) as [E|];
    [|reflexivity].
  rewrite (@unique_by_id (placedFields s) f g Hnd Hf Hg E). destruct f; reflexivity.
Qed.

Lemma drop_in_place_witness :
  let s := run walkthrough initialState in
  let f := PlacedField.mk 0 1 (ofZ 25) (ofZ 5) "Signature" (Some "filler_1000") in
  reachableLaidOut s /\ In f (placedFields s)
  /\ finiteRect sampleBox /\ positiveSize sampleBox
  /\ drop 1 (Some sampleBox) (dragItemOf f)
          (mkMonitor (Some (mkXY zero zero)) None) s = s.
Proof.
  intros s f.
  assert (Hf : In f (placedFields s)) by (left; reflexivity).
  assert (Hfin : finiteRect sampleBox) by (repeat split; reflexivity).
  assert (Hpos : positiveSize sampleBox) by (split; reflexivity).
  split; [exact walkthrough_laidOut|].
  repeat (split; [assumption|]).
  exact (@drop_in_place s f sampleBox 1%nat None walkthrough_laidOut Hf Hfin Hpos).
Defined.

(** ** Pages and the fields they are given *)

Lemma renderedPages_numbers (s : State) :
  map fst (renderedPages s)
  = match pdf s with
    | Some _ => seq 1 (numPages s)
    | None => []
    end.
Proof.
  unfold renderedPages. destruct (pdf s); [|reflexivity].
  rewrite map_map; cbn [fst]. rewrite <- seq_shift.
  apply map_ext. intros i. apply Nat.add_1_r.
Qed.

Lemma renderedPages_same_document (s s' : State) :
  pdf s' = pdf s -> numPages s' = numPages s ->
  map fst (renderedPages s') = map fst (renderedPages s).
Proof.
  intros Hpdf Hn. rewrite !renderedPages_numbers, Hpdf, Hn. reflexivity.
Qed.

Lemma onRenderedPages_same_pages (s s' : State) :
  pdf s' = pdf s -> numPages s' = numPages s ->
  (forall f', In f' (placedFields s') ->
     exists f, In f (placedFields s)
               /\ PlacedField.pageNum f' = PlacedField.pageNum f) ->
  onRenderedPages s -> onRenderedPages s'.
Proof.
  intros Hpdf Hn Hfields Hs f' Hf'.
  rewrite (renderedPages_same_document s s' Hpdf Hn).
  destruct (Hfields f' Hf') as (f & Hf & ->). exact (Hs f Hf).
Qed.

Lemma addFiller_document (now : N) (s : State) :
  pdf (addFiller now s) = pdf s /\ numPages (addFiller now s) = numPages s.
Proof.
  unfold addFiller. destruct (canAddFiller s); split; reflexivity.
Qed.

Lemma onRenderedPages_step (e : Event) (s : State) :
  onRenderedPages s -> laidOut s e -> onRenderedPages (step e s).
Proof.
  intros Hs [_ Hlaid].
  destruct e as [doc|v|now|r|pageNum dropRef item monitor|fid r]; simpl.
  - intros f [].
  - exact Hs.
  - destruct (addFiller_document now s) as [Hpdf Hn].
    apply onRenderedPages_same_pages with (s := s); auto.
    intros f' Hf'. rewrite addFiller_placedFields in Hf'. eauto.
  - apply onRenderedPages_same_pages with (s := s); auto.
    intros f'. cbn [placedFields removeFiller]. rewrite in_map_iff.
    intros (f & <- & Hf). exists f. split; [exact Hf|].
    unfold unassign. destruct (strictEq _ r); reflexivity.
  - destruct Hlaid as (Hpage & _).
    destruct (drop_cases pageNum dropRef item monitor s)
      as [->|[(id & l & t & ->)|(type & l & t & ->)]].
    + exact Hs.
    + apply onRenderedPages_same_pages with (s := s); auto.
      intros f'. cbn [placedFields handleMoveField]. rewrite in_map_iff.
      intros (f & <- & Hf). exists f. split; [exact Hf|].
      destruct (PlacedField.id f =? id)%N; reflexivity.
    + intros f'. cbn [placedFields handleDrop]. rewrite in_app_iff.
      rewrite (renderedPages_same_document s (handleDrop type pageNum l t s))
        by reflexivity.
      intros [Hf|[<-|[]]]; [exact (Hs f' Hf)|exact Hpage].
  - apply onRenderedPages_same_pages with (s := s); auto.
    intros f'. cbn [placedFields handleAssignField]. rewrite in_map_iff.
    intros (f & <- & Hf). exists f. split; [exact Hf|].
    destruct (PlacedField.id f =? fid)%N; reflexivity.
Qed.

Lemma onRenderedPages_of_laidOut (s : State) :
  reachableLaidOut s -> onRenderedPages s.
Proof.
  induction 1 as [|s e _ IH Hlaid]; [intros f []|].
  apply onRenderedPages_step; assumption.
Qed.

Lemma list_sum_map_add (A : Type) (g h : A -> nat) (l : list A) :
  list_sum (map (fun a => g a + h a)%nat l)
  = (list_sum (map g l) + list_sum (map h l))%nat.
Proof.
  induction l as [|a l IH]; simpl; [reflexivity|]. rewrite IH. lia.
Qed.

(** Among the page numbers start+1 .. start+n exactly one equals [k]
    when [k] is one of them. *)
Lemma one_page_matches (k n start : nat) :
  (start < k <= start + n)%nat ->
  list_sum (map (fun index => if (k =? index + 1)%nat then 1 else 0)%nat
                (seq start n)) = 1%nat.
Proof.
  revert start. induction n as [|n IH]; intros start Hk; [lia|].
  simpl. destruct (Nat.eqb_spec k (start + 1)) as [E|E].
  - assert (Hrest : forall m a, (k <= a)%nat ->
              list_sum (map (fun index => if (k =? index + 1)%nat then 1 else 0)%nat
                            (seq a m)) = 0%nat).
    { induction m as [|m IHm]; intros a Ha; simpl; [reflexivity|].
      destruct (Nat.eqb_spec k (a + 1)); [lia|]. apply IHm. lia. }
    rewrite Hrest by lia. reflexivity.
  - rewrite IH by lia. reflexivity.
Qed.

Lemma pages_count_fields (l : list PlacedField.t) (n : nat) :
  (forall f, In f l -> In (PlacedField.pageNum f) (seq 1 n)) ->
  list_sum (map (fun index =>
                   List.length (filter (fun f => (PlacedField.pageNum f =? index + 1)%nat) l))
                (seq 0 n))
  = List.length l.
Proof.
  induction l as [|f l IH]; intros Hl.
  - simpl. induction (seq 0 n); simpl; auto.
  - simpl filter.
    rewrite (map_ext _
               (fun index =>
                  (if (PlacedField.pageNum f =? index + 1)%nat then 1 else 0)
                  + List.length (filter (fun f0 => (PlacedField.pageNum f0 =? index + 1)%nat) l))%nat).
    + rewrite list_sum_map_add, IH by (intros g Hg; apply Hl; right; exact Hg).
      rewrite one_page_matches; [reflexivity|].
      specialize (Hl f (or_introl eq_refl)). apply in_seq in Hl. lia.
    + intros index. destruct (PlacedField.pageNum f =? index + 1)%nat; reflexivity.
Qed.

(** X14. On laid-out pages every placed field is given to the page
    with its number, and to no other: the pages' field lists together
    have as many entries as [placedFields], each list holds the fields of
    its page in the order they were placed, and no field is left
    unrendered. *)
Theorem pages_partition_fields (s : State) :
  reachableLaidOut s ->
  (forall f, In f (placedFields s) ->
     In (PlacedField.pageNum f, fieldsForPage (PlacedField.pageNum f) s)
        (renderedPages s)
     /\ In f (fieldsForPage (PlacedField.pageNum f) s))
  /\ (forall p fs f, In (p, fs) (renderedPages s) -> In f fs ->
        In f (placedFields s) /\ PlacedField.pageNum f = p)
  /\ list_sum (map (fun page => List.length (snd page)) (renderedPages s))
     = List.length (placedFields s).
Proof.
  intros Hlaid. pose proof (onRenderedPages_of_laidOut Hlaid) as Hon.
  split; [|split].
  - intros f Hf. specialize (Hon f Hf).
    split.
    + apply in_map_iff in Hon. destruct Hon as ([p fs] & Hp & Hin).
      simpl in Hp. subst p.
      assert (Efs : fs = fieldsForPage (PlacedField.pageNum f) s).
      { unfold renderedPages in Hin. destruct (pdf s); [|contradiction].
        apply in_map_iff in Hin. destruct Hin as (i & E & _).
        injection E as E1 E2. rewrite <- E2, E1. reflexivity. }
      rewrite <- Efs. exact Hin.
    + apply filter_In. split; [exact Hf|apply Nat.eqb_refl].
  - intros p fs f Hin Hf. unfold renderedPages in Hin.
    destruct (pdf s); [|contradiction].
    apply in_map_iff in Hin. destruct Hin as (i & E & _).
    injection E as <- <-. apply filter_In in Hf. destruct Hf as [Hf Hp].
    split; [exact Hf|apply Nat.eqb_eq, Hp].
  - unfold onRenderedPages in Hon. rewrite renderedPages_numbers in Hon.
    unfold renderedPages. destruct (pdf s).
    + rewrite map_map; cbn [snd]. unfold fieldsForPage.
      apply pages_count_fields, Hon.
    + simpl. destruct (placedFields s) as [|f l]; [reflexivity|].
      destruct (Hon f (or_introl eq_refl)).
Qed.

Lemma pages_partition_fields_witness :
  reachableLaidOut (run walkthrough initialState)
  /\ list_sum (map (fun page => List.length (snd page))
                   (renderedPages (run walkthrough initialState)))
     = List.length (placedFields (run walkthrough initialState)).
Proof.
  split; [exact walkthrough_laidOut|].
  exact (proj2 (proj2 (@pages_partition_fields _ walkthrough_laidOut))).
Defined.

(** ** The colour of a placed field *)

Lemma findIndex_first (r : string) (l : list Filler.t) (i : nat) :
  firstWithId r l i ->
  findIndex (fun f => strictEq (Some r) (Filler.id f)) l = Z.of_nat i.
Proof.
  revert i. induction l as [|a l IH]; intros i [(g & Hg & Hid) Hfirst].
  - destruct i; discriminate.
  - destruct i as [|i]; simpl in Hg.
    + injection Hg as ->. simpl. rewrite Hid, String.eqb_refl. reflexivity.
    + assert (Ha : Filler.id a <> r)
        by (apply (Hfirst 0%nat a); [lia|reflexivity]).
      assert (Hp : strictEq (Some r) (Filler.id a) = false)
        by (apply String.eqb_neq; congruence).
      cbn [findIndex]. rewrite Hp, (IH i).
      * destruct (Z.ltb_spec (Z.of_nat i) 0); lia.
      * split; [eauto|]. intros j g' Hj Hg'.
        apply (Hfirst (S j) g'); [lia|exact Hg'].
Qed.

Lemma findIndex_none (r : string) (l : list Filler.t) :
  ~ In r (map Filler.id l) ->
  findIndex (fun f => strictEq (Some r) (Filler.id f)) l = (-1)%Z.
Proof.
  induction l as [|a l IH]; intros Hnot; [reflexivity|].
  simpl in Hnot.
  assert (Hp : strictEq (Some r) (Filler.id a) = false)
    by (apply String.eqb_neq; intros E; apply Hnot; auto).
  cbn [findIndex]. rewrite Hp, IH by tauto. reflexivity.
Qed.

Lemma listed_has_first (r : string) (l : list Filler.t) :
  In r (map Filler.id l) -> exists i, firstWithId r l i.
Proof.
  induction l as [|a l IH]; simpl; [intros []|].
  destruct (String.eqb_spec (Filler.id a) r) as [E|E].
  - intros _. exists 0%nat. split; [exists a; auto|]. intros j g' Hj. lia.
  - intros [Ha|Hin]; [contradiction|].
    destruct (IH Hin) as (i & (g & Hg & Hid) & Hfirst).
    exists (S i). split; [exists g; auto|].
    intros [|j] g' Hj Hg'; simpl in Hg'.
    + injection Hg' as <-. exact E.
    + apply (Hfirst j g'); [lia|exact Hg'].
Qed.

Lemma colors_at (i : nat) :
  orElse (elementAt colors (Z.rem (Z.of_nat i) (Z.of_nat (List.length colors))))
         "bg-gray-200 border-gray-500"
  = nth (i mod 4) colors "".
Proof.
  rewrite Z.rem_mod_nonneg by (simpl; lia).
  change (Z.of_nat (List.length colors)) with (Z.of_nat 4).
  rewrite <- Nat2Z.inj_mod. unfold elementAt.
  destruct (Z.ltb_spec (Z.of_nat (i mod 4)) 0); [lia|].
  rewrite Nat2Z.id.
  pose proof (Nat.mod_upper_bound i 4 ltac:(lia)) as Hlt.
  destruct (i mod 4)%nat as [|[|[|[|k]]]]; try reflexivity. lia.
Qed.

(** X15. The colour of a placed field: yellow when its [assignedTo] is
    null or empty; the colour at the position of its filler in the list,
    taken modulo four, when the filler is listed; grey when the id is not
    the id of any listed filler, where [findIndex] answers -1 and the
    remainder of -1 is -1. *)
Theorem getBackgroundColor_cases (assignedTo : option string)
        (allFillers : list Filler.t) :
  (isFalsy assignedTo = true ->
   getBackgroundColor assignedTo allFillers = "bg-yellow-200 border-yellow-500")
  /\ (forall r i, assignedTo = Some r -> r <> "" -> firstWithId r allFillers i ->
        getBackgroundColor assignedTo allFillers = nth (i mod 4) colors "")
  /\ (forall r, assignedTo = Some r -> r <> "" ->
        ~ In r (map Filler.id allFillers) ->
        getBackgroundColor assignedTo allFillers = "bg-gray-200 border-gray-500").
Proof.
  unfold getBackgroundColor. split; [|split].
  - intros ->. reflexivity.
  - intros r i -> Hne Hfirst.
    assert (Hf : isFalsy (Some r) = false).
    { simpl. unfold truthy. destruct (String.eqb_spec r ""); [contradiction|reflexivity]. }
    rewrite Hf, (findIndex_first Hfirst). apply colors_at.
  - intros r -> Hne Hnot.
    assert (Hf : isFalsy (Some r) = false).
    { simpl. unfold truthy. destruct (String.eqb_spec r ""); [contradiction|reflexivity]. }
    rewrite Hf, (@findIndex_none r allFillers Hnot). reflexivity.
Qed.

(** X16. In a reachable state no placed field is grey: an unassigned
    field is yellow and an assigned one has one of the four filler
    colours. *)
Theorem reachable_never_grey (s : State) (f : PlacedField.t) :
  reachable s -> In f (placedFields s) ->
  getBackgroundColor (PlacedField.assignedTo f) (fillers s)
  <> "bg-gray-200 border-gray-500"
  /\ (PlacedField.assignedTo f <> None ->
      In (getBackgroundColor (PlacedField.assignedTo f) (fillers s)) colors).
Proof.
  intros Hreach Hf.
  pose proof (reachable_assignmentsLive Hreach f Hf) as Hlive.
  pose proof (reachable_noEmptyAssignment Hreach f Hf) as Hne.
  destruct (PlacedField.assignedTo f) as [r|].
  - destruct (@listed_has_first r (fillers s) Hlive) as (i & Hfirst).
    assert (Hr : r <> "") by congruence.
    assert (Hf' : isFalsy (Some r) = false).
    { simpl. unfold truthy. destruct (String.eqb_spec r ""); [contradiction|reflexivity]. }
    unfold getBackgroundColor.
    rewrite Hf', (findIndex_first Hfirst), colors_at.
    pose proof (Nat.mod_upper_bound i 4 ltac:(lia)) as Hlt.
    destruct (i mod 4)%nat as [|[|[|[|k]]]]; try lia;
      (split; [discriminate|intros _; simpl; tauto]).
  - split; [discriminate|congruence].
Qed.

Lemma reachable_never_grey_witness :
  let s := run walkthrough initialState in
  let f := PlacedField.mk 0 1 (ofZ 25) (ofZ 5) "Signature" (Some "filler_1000") in
  reachable s /\ In f (placedFields s)
  /\ getBackgroundColor (PlacedField.assignedTo f) (fillers s)
     <> "bg-gray-200 border-gray-500".
Proof.
  intros s f.
  assert (Hf : In f (placedFields s)) by (left; reflexivity).
  split; [exact walkthrough_reachable|]. split; [exact Hf|].
  exact (proj1 (@reachable_never_grey s f walkthrough_reachable Hf)).
Defined.

(** ** Filler ids under distinct clock readings *)

Lemma run_cons (e : Event) (es : list Event) (s : State) :
  run (e :: es) s = run es (step e s).
Proof. reflexivity. Qed.

Lemma step_filler_ids (e : Event) (s : State) (r : string) :
  In r (map Filler.id (fillers (step e s))) ->
  In r (map Filler.id (fillers s))
  \/ exists now, e = AddClicked now /\ r = fillerId now.
Proof.
  destruct e as [doc|v|now|id|pageNum dropRef item monitor|fid rid]; simpl; auto.
  - intros [].
  - unfold addFiller. destruct (canAddFiller s); cbn [fillers]; auto.
    rewrite map_app, in_app_iff. simpl. intros [H|[<-|[]]]; eauto.
  - rewrite !in_map_iff. intros (g & <- & Hg). apply filter_In in Hg.
    left. exists g. tauto.
  - rewrite drop_fillers. auto.
Qed.

Lemma step_filler_ids_NoDup (e : Event) (s : State) :
  NoDup (map Filler.id (fillers s)) ->
  (forall now, e = AddClicked now ->
               ~ In (fillerId now) (map Filler.id (fillers s))) ->
  NoDup (map Filler.id (fillers (step e s))).
Proof.
  intros Hnd Hnew.
  destruct e as [doc|v|now|id|pageNum dropRef item monitor|fid rid]; simpl; auto.
  - constructor.
  - unfold addFiller. destruct (canAddFiller s); cbn [fillers]; auto.
    rewrite map_app. simpl. apply NoDup_app; [exact Hnd| |].
    + repeat constructor. intros [].
    + intros r Hr [<-|[]]. exact (Hnew now eq_refl Hr).
  - apply NoDup_map_filter, Hnd.
  - rewrite drop_fillers. exact Hnd.
Qed.

Lemma run_filler_ids_NoDup (es : list Event) (s : State) (seen : list N) :
  NoDup (map Filler.id (fillers s)) ->
  (forall r, In r (map Filler.id (fillers s)) ->
             exists n, In n seen /\ r = fillerId n) ->
  NoDup (seen ++ clockReadings es) ->
  NoDup (map Filler.id (fillers (run es s))).
Proof.
  revert s seen. induction es as [|e es IH]; intros s seen Hnd Hseen Hclock;
    [exact Hnd|].
  rewrite run_cons.
  destruct e as [doc|v|now|id|pageNum dropRef item monitor|fid rid];
    try (apply (IH _ seen);
         [ apply step_filler_ids_NoDup; [exact Hnd|discriminate]
         | intros r Hr; destruct (step_filler_ids _ _ _ Hr) as [H|(n & E & _)];
           [auto|discriminate E]
         | exact Hclock ]).
  cbn [clockReadings] in Hclock.
  assert (Hfresh : ~ In now seen).
  { apply NoDup_remove_2 in Hclock. rewrite in_app_iff in Hclock. tauto. }
  apply (IH _ (seen ++ [now])%list).
  - apply step_filler_ids_NoDup; [exact Hnd|].
    intros n E Hin. injection E as <-.
    destruct (Hseen _ Hin) as (m & Hm & Em).
    apply fillerId_inj in Em. subst m. contradiction.
  - intros r Hr. destruct (step_filler_ids _ _ _ Hr) as [H|(n & E & ->)].
    + destruct (Hseen r H) as (m & Hm & ->). exists m.
      rewrite in_app_iff. auto.
    + injection E as <-. exists now. rewrite in_app_iff. simpl. auto.
  - rewrite <- app_assoc. exact Hclock.
Qed.

(** X17. When the clock readings at the clicks on Add are pairwise
    distinct, the ids of the listed fillers are pairwise distinct at the
    end of the run. *)
Theorem distinct_clock_distinct_ids (es : list Event) :
  NoDup (clockReadings es) ->
  NoDup (map Filler.id (fillers (run es initialState))).
Proof.
  intros Hclock.
  apply (@run_filler_ids_NoDup es initialState []).
  - constructor.
  - intros r [].
  - exact Hclock.
Qed.

Lemma distinct_clock_distinct_ids_witness :
  let es := (walkthrough ++ [EmailTyped "b@x.com"; AddClicked 1001])%list in
  NoDup (clockReadings es)
  /\ NoDup (map Filler.id (fillers (run es initialState))).
Proof.
  intros es.
  assert (Hclock : NoDup (clockReadings es)).
  { vm_compute. repeat constructor; simpl; intuition discriminate. }
  split; [exact Hclock|].
  exact (@distinct_clock_distinct_ids es Hclock).
Defined.

(** ** What the email test accepts *)

Section EmailTest.
Import RegExp RegExpSemantics.

Lemma append_nil_r (s : string) : s ++ "" = s.
Proof.
  induction s as [|c s IH]; simpl; [reflexivity|]. rewrite IH. reflexivity.
Qed.

Lemma append_assoc (s1 s2 s3 : string) : (s1 ++ s2) ++ s3 = s1 ++ (s2 ++ s3).
Proof.
  induction s1 as [|c s1 IH]; simpl; [reflexivity|]. rewrite IH. reflexivity.
Qed.

Lemma append_eq_nil (s1 s2 : string) : s1 ++ s2 = "" -> s1 = "" /\ s2 = "".
Proof.
  destruct s1; simpl; [auto|discriminate].
Qed.

Lemma nullable_Matches (r : regex) : nullable r = true <-> Matches r "".
Proof.
  split.
  - induction r; simpl; intros Hn; try discriminate.
    + constructor.
    + apply andb_true_iff in Hn. destruct Hn.
      change "" with ("" ++ ""). constructor; auto.
    + apply orb_true_iff in Hn. destruct Hn; [apply MAltL|apply MAltR]; auto.
    + constructor.
  - intros H. remember "" as w eqn:Ew.
    induction H; simpl; try discriminate; try reflexivity.
    + apply append_eq_nil in Ew. destruct Ew. rewrite IHMatches1, IHMatches2; auto.
    + rewrite IHMatches; auto.
    + rewrite IHMatches; auto using orb_true_r.
Qed.

Lemma deriv_sound (c : ascii) (r : regex) (s : string) :
  Matches (deriv c r) s -> Matches r (String c s).
Proof.
  revert s. induction r; simpl; intros s H.
  - inversion H.
  - inversion H.
  - destruct (Ascii.eqb_spec c a) as [->|]; inversion H; subst. constructor.
  - destruct (isWhiteSpace c) eqn:E; inversion H; subst. constructor. exact E.
  - destruct (nullable r1) eqn:Hn.
    + inversion H as [| | | |? ? ? H1|? ? ? H2| |]; subst.
      * inversion H1; subst.
        change (String c (s1 ++ s2)) with (String c s1 ++ s2).
        constructor; auto.
      * change (String c s) with ("" ++ String c s).
        constructor; [apply nullable_Matches, Hn|auto].
    + inversion H; subst.
      change (String c (s1 ++ s2)) with (String c s1 ++ s2).
      constructor; auto.
  - inversion H; subst; [apply MAltL|apply MAltR]; auto.
  - inversion H; subst.
    change (String c (s1 ++ s2)) with (String c s1 ++ s2).
    constructor; auto.
Qed.

Lemma deriv_complete (c : ascii) (r : regex) (s : string) :
  Matches r (String c s) -> Matches (deriv c r) s.
Proof.
  intros H. remember (String c s) as w eqn:Ew. revert c s Ew.
  induction H; intros c0 s0 Ew; simpl.
  - discriminate.
  - injection Ew as -> <-. rewrite Ascii.eqb_refl. constructor.
  - injection Ew as -> <-. rewrite H. constructor.
  - destruct s1 as [|c1 s1]; simpl in Ew.
    + assert (Hn : nullable r1 = true) by (apply nullable_Matches; assumption).
      rewrite Hn. apply MAltR. auto.
    + injection Ew as -> <-.
      destruct (nullable r1); [apply MAltL|]; constructor; auto.
  - apply MAltL. auto.
  - apply MAltR. auto.
  - discriminate.
  - destruct s1 as [|c1 s1]; simpl in Ew.
    + apply (IHMatches2 c0 s0 Ew).
    + injection Ew as -> <-. constructor; auto.
Qed.

Lemma matchesPrefix_spec (r : regex) (s : string) :
  matchesPrefix r s = true <-> exists p q, s = p ++ q /\ Matches r p.
Proof.
  revert r. induction s as [|c s IH]; intros r; simpl.
  - rewrite orb_false_r, nullable_Matches. split.
    + intros H. exists "", "". auto.
    + intros (p & q & E & H). symmetry in E. apply append_eq_nil in E.
      destruct E as [-> _]. exact H.
  - rewrite orb_true_iff, nullable_Matches, IH. split.
    + intros [H|(p & q & -> & H)].
      * exists "", (String c s). auto.
      * exists (String c p), q. auto using deriv_sound.
    + intros (p & q & E & H). destruct p as [|c' p]; [auto|].
      simpl in E. injection E as <- ->. right.
      exists p, q. auto using deriv_complete.
Qed.

Lemma test_spec (r : regex) (s : string) :
  test r s = true <-> exists pre p post, s = pre ++ p ++ post /\ Matches r p.
Proof.
  induction s as [|c s IH]; cbn [test].
  - rewrite orb_false_r, matchesPrefix_spec. split.
    + intros (p & q & E & H). exists "", p, q. auto.
    + intros (pre & p & post & E & H). symmetry in E.
      apply append_eq_nil in E. destruct E as [-> E].
      apply append_eq_nil in E. destruct E as [-> ->].
      exists "", "". auto.
  - rewrite orb_true_iff, matchesPrefix_spec, IH. split.
    + intros [(p & q & E & H)|(pre & p & post & -> & H)].
      * exists "", p, q. auto.
      * exists (String c pre), p, post. auto.
    + intros (pre & p & post & E & H). destruct pre as [|c' pre].
      * left. exists p, post. auto.
      * simpl in E. injection E as <- ->. right. exists pre, p, post. auto.
Qed.

Lemma star_NonSpace (w : string) :
  Matches (Star NonSpace) w <-> allNonSpace w = true.
Proof.
  split.
  - intros H. remember (Star NonSpace) as r eqn:Er.
    induction H; try discriminate; [reflexivity|].
    injection Er as ->. inversion H as [| |c Hc| | | | |]; subst. simpl.
    rewrite Hc. simpl. auto.
  - induction w as [|c w IH]; simpl; intros H; [constructor|].
    apply andb_true_iff in H. destruct H as [Hc Hw].
    change (String c w) with (String c "" ++ w).
    constructor; [constructor; apply negb_true_iff, Hc|auto].
Qed.

Lemma plus_NonSpace (w : string) :
  Matches (Plus NonSpace) w
  <-> exists c w', w = String c w' /\ isWhiteSpace c = false
                   /\ allNonSpace w' = true.
Proof.
  unfold Plus. split.
  - intros H. inversion H as [| | |? ? ? ? H1 H2| | | |]; subst.
    inversion H1 as [| |c Hc| | | | |]; subst.
    apply star_NonSpace in H2. simpl. eauto.
  - intros (c & w' & -> & Hc & Hw).
    change (String c w') with (String c "" ++ w').
    constructor; [constructor; exact Hc|apply star_NonSpace, Hw].
Qed.

Lemma allNonSpace_app (u v : string) :
  allNonSpace (u ++ v) = allNonSpace u && allNonSpace v.
Proof.
  induction u as [|c u IH]; simpl; [reflexivity|].
  rewrite IH, andb_assoc. reflexivity.
Qed.

(** A non-empty run of non-space characters ends in one. *)
Lemma last_NonSpace (c : ascii) (w : string) :
  isWhiteSpace c = false -> allNonSpace w = true ->
  exists u a, String c w = u ++ String a "" /\ isWhiteSpace a = false.
Proof.
  revert c. induction w as [|d w IH]; intros c Hc Hw.
  - exists "", c. auto.
  - simpl in Hw. apply andb_true_iff in Hw. destruct Hw as [Hd Hw].
    apply negb_true_iff in Hd.
    destruct (IH d Hd Hw) as (u & a & E & Ha).
    exists (String c u), a. simpl. rewrite <- E. auto.
Qed.

Lemma emailShape_Matches (p : string) :
  Matches emailShape p
  <-> exists u mid v,
        p = u ++ String "@" (mid ++ String "." v)
        /\ Matches (Plus NonSpace) u
        /\ Matches (Plus NonSpace) mid
        /\ Matches (Plus NonSpace) v.
Proof.
  unfold emailShape. split.
  - intros H.
    inversion H as [| | |? ? u r1 Hu H1| | | |]; subst.
    inversion H1 as [| | |? ? at_ r2 Hat H2| | | |]; subst.
    inversion Hat; subst.
    inversion H2 as [| | |? ? mid r3 Hmid H3| | | |]; subst.
    inversion H3 as [| | |? ? dot v Hdot Hv| | | |]; subst.
    inversion Hdot; subst.
    exists u, mid, v. simpl. auto.
  - intros (u & mid & v & -> & Hu & Hmid & Hv).
    constructor; [exact Hu|].
    change (String "@" (mid ++ String "." v))
      with (String "@" "" ++ (mid ++ (String "." "" ++ v))).
    repeat constructor; assumption.
Qed.

(** X18. The email test [/\S+@\S+\.\S+/.test(s)] succeeds exactly when
    [s] contains, somewhere, a non-space character, an at sign, one or
    more non-space characters, a dot and a non-space character, in that
    order and with nothing between them; what comes before and after is
    not looked at. *)
Theorem emailShape_test_iff (s : string) :
  test emailShape s = true
  <-> exists pre a mid b post,
        s = pre ++ String a (String "@" (mid ++ String "." (String b post)))
        /\ isWhiteSpace a = false
        /\ mid <> "" /\ allNonSpace mid = true
        /\ isWhiteSpace b = false.
Proof.
  rewrite test_spec. split.
  - intros (pre & p & post & -> & H).
    apply emailShape_Matches in H.
    destruct H as (u & mid & v & -> & Hu & Hmid & Hv).
    apply plus_NonSpace in Hu. destruct Hu as (cu & u' & -> & Hcu & Hu').
    apply plus_NonSpace in Hmid. destruct Hmid as (cm & m' & -> & Hcm & Hm').
    apply plus_NonSpace in Hv. destruct Hv as (b & v' & -> & Hb & _).
    destruct (last_NonSpace cu u' Hcu Hu') as (w & a & Ew & Ha).
    exists (pre ++ w), a, (String cm m'), b, (v' ++ post).
    split; [|repeat split; auto; try discriminate;
             simpl; rewrite Hcm, Hm'; reflexivity].
    rewrite Ew. rewrite !append_assoc. simpl.
    rewrite !append_assoc. simpl. reflexivity.
  - intros (pre & a & mid & b & post & -> & Ha & Hne & Hmid & Hb).
    exists pre, (String a "" ++ String "@" (mid ++ String "." (String b ""))), post.
    split.
    + simpl. rewrite !append_assoc. simpl. reflexivity.
    + apply emailShape_Matches. exists (String a ""), mid, (String b "").
      split; [reflexivity|].
      repeat split; apply plus_NonSpace.
      * exists a, "". auto.
      * destruct mid as [|cm m']; [contradiction|].
        simpl in Hmid. apply andb_true_iff in Hmid. destruct Hmid as [Hc Hm].
        exists cm, m'. rewrite negb_true_iff in Hc. auto.
      * exists b, "". auto.
Qed.
End EmailTest.

(** ** NaN and the clamp *)

(** X19. [Math.max(0, Math.min(100, v))] is NaN exactly when [v] is:
    the clamp does not repair a NaN, and it never produces one.  A field
    whose [left] is NaN therefore keeps a NaN [left] under every move. *)
Theorem constrain_NaN_iff (v : number) :
  isNaN (constrain v) = isNaN v
  /\ (forall top delta box, fst (moveExisting NaN top delta box) = NaN)
  /\ (forall left delta box, snd (moveExisting left NaN delta box) = NaN).
Proof.
  split; [|split].
  - destruct (isNaN v) eqn:Hv.
    + destruct v; try discriminate. reflexivity.
    + apply inRange_not_nan, constrain_inRange, Hv.
  - intros top delta box. reflexivity.
  - intros left delta box. unfold moveExisting. cbn [snd].
    cbn [num_add Binary64]. unfold add, SFadd.
    destruct left; reflexivity.
Qed.

(** ** A box of width zero *)

(** X20. On a box whose width is zero, a new field gets [left] NaN when
    the pointer is exactly at the left edge of the box, 100 when it is
    to the right of it and 0 when it is to the left. *)
Theorem placeNew_zero_width (offset : XYCoord number) (box : DOMRect number) :
  width box = zero ->
  isFinite (x offset) = true -> isFinite (rect_left box) = true ->
  let d := sub (x offset) (rect_left box) in
  (compare d zero = Some Eq -> fst (placeNew offset box) = NaN)
  /\ (ltb zero d = true -> fst (placeNew offset box) = hundred)
  /\ (ltb d zero = true -> fst (placeNew offset box) = zero).
Proof.
  intros Hw Hx Hl d.
  assert (Hd : isNaN d = false) by (apply sub_not_nan; assumption).
  unfold placeNew; cbn [fst]. fold d. rewrite Hw.
  cbn [num_mul num_div num_sub num_hundred Binary64].
  change (sub (x offset) (rect_left box)) with d.
  destruct d as [sd|sd| |sd m e]; try discriminate Hd.
  - repeat split; try discriminate; destruct sd; discriminate.
  - destruct sd; repeat split; try discriminate; reflexivity.
  - destruct sd; repeat split; try discriminate; reflexivity.
Qed.

Lemma placeNew_zero_width_witness :
  let offset := mkXY (ofZ 0) (ofZ 20) in
  width zeroWidthBox = zero
  /\ isFinite (x offset) = true /\ isFinite (rect_left zeroWidthBox) = true
  /\ fst (placeNew offset zeroWidthBox) = NaN.
Proof.
  intros offset.
  assert (Hw : width zeroWidthBox = zero) by reflexivity.
  assert (Hx : isFinite (x offset) = true) by reflexivity.
  assert (Hl : isFinite (rect_left zeroWidthBox) = true) by reflexivity.
  repeat (split; [assumption|]).
  apply (proj1 (@placeNew_zero_width offset zeroWidthBox Hw Hx Hl)).
  reflexivity.
Defined.

(** ** Readiness gained *)

(** X21. When there is a filler and every other placed field is
    assigned, assigning the field [i] to a non-empty filler id makes the
    document ready to send. *)
Theorem assign_last_field_ready (i : N) (r : string) (s : State) :
  fillers s <> [] -> r <> "" ->
  In i (map PlacedField.id (placedFields s)) ->
  (forall f, In f (placedFields s) -> PlacedField.id f <> i ->
             isFalsy (PlacedField.assignedTo f) = false) ->
  isReadyToSend (handleAssignField i r s) = true.
Proof.
  intros Hfillers Hr Hi Hothers.
  unfold isReadyToSend, sendDisabled.
  cbn [placedFields fillers handleAssignField].
  rewrite length_map.
  destruct (placedFields s) as [|f0 l] eqn:Efields; [contradiction|].
  destruct (fillers s) as [|g gs]; [contradiction|].
  cbn [List.length Nat.eqb orb]. apply negb_true_iff.
  rewrite <- Efields in *. clear Efields.
  destruct (existsb _ _) eqn:Hex; [|reflexivity].
  apply existsb_exists in Hex. destruct Hex as (f' & Hin & Hfalsy).
  apply in_map_iff in Hin. destruct Hin as (f & <- & Hf).
  destruct (N.eqb_spec (PlacedField.id f) i) as [E|E].
  - cbn [PlacedField.assignedTo PlacedField.withAssignedTo] in Hfalsy.
    destruct (orNull_cases r) as [[-> _]|[_ Hor]]; [contradiction|].
    rewrite Hor in Hfalsy. simpl in Hfalsy. unfold truthy in Hfalsy.
    destruct (String.eqb_spec r ""); [contradiction|discriminate].
  - rewrite (Hothers f Hf E) in Hfalsy. discriminate.
Qed.

Lemma assign_last_field_ready_witness :
  let s := run (removelast walkthrough) initialState in
  fillers s <> [] /\ "filler_1000" <> ""
  /\ In 0%N (map PlacedField.id (placedFields s))
  /\ isReadyToSend s = false
  /\ isReadyToSend (handleAssignField 0 "filler_1000" s) = true.
Proof.
  intros s.
  assert (H1 : fillers s <> []) by (vm_compute; discriminate).
  assert (H2 : "filler_1000" <> "") by discriminate.
  assert (H3 : In 0%N (map PlacedField.id (placedFields s)))
    by (left; reflexivity).
  assert (H4 : forall f, In f (placedFields s) -> PlacedField.id f <> 0%N ->
                         isFalsy (PlacedField.assignedTo f) = false).
  { intros f [<-|[]] Hne. exfalso. apply Hne. reflexivity. }
  repeat (split; [assumption|]).
  split; [vm_compute; reflexivity|].
  exact (@assign_last_field_ready 0%N "filler_1000" s H1 H2 H3 H4).
Defined.
